(** * CenterNet ground-truth builder

    A shallow embedding of
    [official/vision/beta/projects/centernet/ops/gt_builder.py]
    ([build_heatmap_and_regressed_features]) and the properties its
    specification states about it.

    Numbers.  Tensors of the three floating dtypes are modelled over the
    real numbers [R]: rounding, overflow, infinities and NaN are outside
    the model, and the three precisions behave alike.  Integer tensors
    ([int32]) are modelled over [Z] without wrap-around.

    Failure.  A Python exception is a [Raise] in the [result] monad; the
    errors TensorFlow reports for mismatched shapes, negative dimensions
    and out-of-range scatter indices (CPU kernels) are
    [InvalidArgumentError]. *)

From Stdlib Require Import Reals Lra Lia ZArith.
From stdpp Require Import base list strings.

(** ** Exceptions *)

Inductive exn : Type :=
  | Exception (msg : string)
  | InvalidArgumentError.

Inductive result (A : Type) : Type :=
  | Ok (a : A)
  | Raise (e : exn).
Arguments Ok {A} a.
Arguments Raise {A} e.

Definition bind {A B} (m : result A) (f : A -> result B) : result B :=
  match m with Ok a => f a | Raise e => Raise e end.

Notation "x <- m ;; k" := (bind m (fun x => k))
  (at level 100, m at next level, right associativity).

#[global] Instance result_fmap : FMap result := fun A B f m =>
  match m with Ok a => Ok (f a) | Raise e => Raise e end.

Definition is_Ok {A} (m : result A) : Prop := exists a, m = Ok a.

(** A computation that raises nothing but TensorFlow's own error. *)
Definition only_tf {A} (m : result A) : Prop :=
  forall e, m = Raise e -> e = InvalidArgumentError.

(** ** Tensors as nested lists *)

Abbreviation tensor1 A := (list A) (only parsing).
Abbreviation tensor2 A := (list (list A)) (only parsing).
Abbreviation tensor3 A := (list (list (list A))) (only parsing).

(** [tf.zeros]: a negative dimension is an error. *)
Definition dim (n : Z) : result nat :=
  if decide (0 <= n)%Z then Ok (Z.to_nat n) else Raise InvalidArgumentError.

Definition tf_zeros1 {A} (zero : A) (n : Z) : result (tensor1 A) :=
  n' <- dim n;; Ok (replicate n' zero).

Definition tf_zeros2 {A} (zero : A) (n m : Z) : result (tensor2 A) :=
  n' <- dim n;; m' <- dim m;; Ok (replicate n' (replicate m' zero)).

Definition tf_zeros3 {A} (zero : A) (n m k : Z) : result (tensor3 A) :=
  n' <- dim n;; m' <- dim m;; k' <- dim k;;
  Ok (replicate n' (replicate m' (replicate k' zero))).

(** [t[:n]] on the leading axis, with Python's reading of a negative
    bound. *)
Definition slice_to {A} (n : Z) (t : list A) : list A :=
  if decide (0 <= n)%Z then take (Z.to_nat n) t
  else take (length t - Z.to_nat (- n)) t.

(** [tf.range(n)]. *)
Definition tf_range (n : Z) : list Z := Z.of_nat <$> seq 0 (Z.to_nat n).

(** [tf.stack(cols, axis=-1)] of rank-1 tensors: all columns must have
    the same length. *)
Fixpoint tf_stack {A} (cols : list (list A)) : result (tensor2 A) :=
  match cols with
  | [] => Raise InvalidArgumentError
  | [c] => Ok ((fun x => [x]) <$> c)
  | c :: ((_ :: _) as cs) =>
      rows <- tf_stack cs;;
      if decide (length c = length rows) then Ok (zip_with cons c rows)
      else Raise InvalidArgumentError
  end.

(** [tf.math.floor], [tf.math.ceil] and the cast of a float to [int32]
    (truncation). *)
Definition tf_floor (x : R) : R := IZR (Zfloor x).
Definition tf_ceil (x : R) : R := IZR (Zceil x).
Definition cast_int32 (x : R) : Z :=
  if Rle_dec 0 x then Zfloor x else Zceil x.

(** *** Reading and writing one cell *)

Definition read0 {A} (t : A) (ix : list Z) : option A :=
  match ix with [] => Some t | _ => None end.

Definition write0 {A} (t : A) (ix : list Z) (v : A) : result A :=
  match ix with [] => Ok v | _ => Raise InvalidArgumentError end.

Definition read_at {T A} (rd : T -> list Z -> option A)
    (t : list T) (ix : list Z) : option A :=
  match ix with
  | i :: ix' =>
      if decide (0 <= i)%Z then s ← t !! Z.to_nat i; rd s ix' else None
  | [] => None
  end.

Definition write_at {T A} (w : T -> list Z -> A -> result T)
    (t : list T) (ix : list Z) (v : A) : result (list T) :=
  match ix with
  | i :: ix' =>
      if decide (0 <= i)%Z then
        match t !! Z.to_nat i with
        | Some s => s' <- w s ix' v;; Ok (<[Z.to_nat i := s']> t)
        | None => Raise InvalidArgumentError
        end
      else Raise InvalidArgumentError
  | [] => Raise InvalidArgumentError
  end.

Definition read1 {A} : tensor1 A -> list Z -> option A := read_at read0.
Definition read2 {A} : tensor2 A -> list Z -> option A := read_at read1.
Definition read3 {A} : tensor3 A -> list Z -> option A := read_at read2.
Definition write1 {A} : tensor1 A -> list Z -> A -> result (tensor1 A) :=
  write_at write0.
Definition write2 {A} : tensor2 A -> list Z -> A -> result (tensor2 A) :=
  write_at write1.
Definition write3 {A} : tensor3 A -> list Z -> A -> result (tensor3 A) :=
  write_at write2.

(** What a rank of tensors owes its cells: a write succeeds exactly at the
    indices that can be read, keeps the shape, and changes the cell
    written and no other; a tensor is determined by its shape and its
    cells. *)
Record tensor_laws {T A} (rd : T -> list Z -> option A)
    (w : T -> list Z -> A -> result T) (sh : relation T) : Prop := {
  tl_equiv : Equivalence sh;
  tl_write_ok t ix v : is_Some (rd t ix) -> is_Ok (w t ix v);
  tl_write_valid t ix v t' : w t ix v = Ok t' -> is_Some (rd t ix);
  tl_write_shape t ix v t' : w t ix v = Ok t' -> sh t t';
  tl_read_write t ix v t' ix' :
    w t ix v = Ok t' ->
    rd t' ix' = if decide (ix' = ix) then Some v else rd t ix';
  tl_ext t t' : sh t t' -> (forall ix, rd t ix = rd t' ix) -> t = t'
}.

(** *** [tf.tensor_scatter_nd_update] *)

(** Pairs an index tensor with its updates; the leading shapes must
    agree. *)
Fixpoint zip_exact {X Y} (xs : list X) (ys : list Y) : result (list (X * Y)) :=
  match xs, ys with
  | [], [] => Ok []
  | x :: xs', y :: ys' => r <- zip_exact xs' ys';; Ok ((x, y) :: r)
  | _, _ => Raise InvalidArgumentError
  end.

Fixpoint zip_exact2 {X Y} (xss : list (list X)) (yss : list (list Y))
    : result (list (X * Y)) :=
  match xss, yss with
  | [], [] => Ok []
  | xs :: xss', ys :: yss' =>
      r <- zip_exact xs ys;; r' <- zip_exact2 xss' yss';; Ok (r ++ r')
  | _, _ => Raise InvalidArgumentError
  end.

(** The updates are applied one after the other, in index order. *)
Fixpoint apply_updates {T A} (w : T -> list Z -> A -> result T)
    (t : T) (ws : list (list Z * A)) : result T :=
  match ws with
  | [] => Ok t
  | (ix, v) :: ws' => t' <- w t ix v;; apply_updates w t' ws'
  end.

(** Indices of shape [[n, d]], updates of shape [[n]]. *)
Definition tensor_scatter_nd_update {T A} (w : T -> list Z -> A -> result T)
    (tensor : T) (indices : list (list Z)) (updates : list A) : result T :=
  ws <- zip_exact indices updates;; apply_updates w tensor ws.

(** Indices of shape [[n, m, d]], updates of shape [[n, m]]. *)
Definition tensor_scatter_nd_update2 {T A} (w : T -> list Z -> A -> result T)
    (tensor : T) (indices : list (list (list Z))) (updates : list (list A))
    : result T :=
  ws <- zip_exact2 indices updates;; apply_updates w tensor ws.

(** The update a scatter leaves in cell [ix]: the last one sent there. *)
Fixpoint last_update {A} (ix : list Z) (ws : list (list Z * A)) : option A :=
  match ws with
  | [] => None
  | (ix', v) :: ws' =>
      match last_update ix ws' with
      | Some v' => Some v'
      | None => if decide (ix' = ix) then Some v else None
      end
  end.

(** *** [tf.math.reduce_max(ts, axis=0)] *)

Definition maximum3 : tensor3 R -> tensor3 R -> tensor3 R :=
  zip_with (zip_with (zip_with Rmax)).

(** Over no tensors at all TensorFlow answers with the lowest value of the
    dtype, which the reals lack.  The builder reaches that case only when
    [bbox] has no rows while [num_detections > 0], where the scatter that
    follows raises on the shape of its updates; the model raises here. *)
Definition reduce_max (ts : list (tensor3 R)) : result (tensor3 R) :=
  match ts with
  | [] => Raise InvalidArgumentError
  | t :: ts' => Ok (foldl maximum3 t ts')
  end.

(** One step of the maximum, from no tensor at all. *)
Definition max_into (acc : option (tensor3 R)) (t : tensor3 R)
    : option (tensor3 R) :=
  Some (match acc with Some a => maximum3 a t | None => t end).

(** *** Helpers of [preprocess_ops] *)

(** Modelled from the spec: [preprocess_ops.cartesian_product] is not part
    of the sources at hand.  Section 4.4 of the specification has the
    encoder visit the rows [i] in [[0, count)] in input order and both
    columns of each row, which is the product in row-major order. *)
Definition cartesian_product (xs ys : list Z) : list (list Z) :=
  x ← xs; (fun y => [x; y]) <$> ys.

(** [tf.reshape(t, [n, 2, 2])] of a [[2n, 2]] tensor. *)
Fixpoint reshape_pairs {X} (t : list X) : list (list X) :=
  match t with
  | a :: b :: t' => [a; b] :: reshape_pairs t'
  | _ => []
  end.

(** ** The data model *)

Inductive DType : Type := float16 | bfloat16 | float32.

(** One row of [labels['bbox']]: [[ymin, xmin, ymax, xmax]]. *)
Record box : Type := Box { ymin : R; xmin : R; ymax : R; xmax : R }.

Record Labels : Type := mkLabels {
  bbox : list box;
  classes : list Z;
  num_detections : Z
}.

Record Bundle : Type := mkBundle {
  ct_heatmaps : tensor3 R;
  ct_offset : tensor2 R;
  size : tensor2 R;
  box_mask : tensor1 Z;
  box_indices : tensor2 Z
}.

Definition unsupported_datatype : string :=
  "Unsupported datatype used in ground truth builder only {float16, bfloat16, or float32}".

Definition parse_dtype (dtype : string) : result DType :=
  if decide (dtype = "float16") then Ok float16
  else if decide (dtype = "bfloat16") then Ok bfloat16
  else if decide (dtype = "float32") then Ok float32
  else Raise (Exception unsupported_datatype).

(** Modelled from the spec: [preprocess_ops.draw_gaussian] is not part of
    the sources at hand.  Section 4.3 of the specification: given the
    heatmap shape [[H, W, C]] and the tuple [(class_id, row, col, radius)]
    of an instance, channel [class_id] holds
    [exp (- ((i - row)^2 + (j - col)^2) / (2 sigma^2))], [sigma = r / 3],
    inside the [(2r + 1) x (2r + 1)] window centred at [(row, col)] and
    clipped to the grid; every other cell is 0.  [in_window] is the
    window, [gaussian_value] the value inside it, [splat_value] the value
    of a cell and [draw_gaussian] the grid of these values. *)
Definition in_window (class_id row col r i j c : Z) : Prop :=
  c = class_id /\ (Z.abs (i - row) <= r)%Z /\ (Z.abs (j - col) <= r)%Z.

Definition gaussian_value (row col r i j : Z) : R :=
  let sigma := (IZR r / 3)%R in
  exp (- IZR ((i - row) ^ 2 + (j - col) ^ 2) / (2 * (sigma * sigma)))%R.

Definition splat_value (class_id row col r i j c : Z) : R :=
  if decide (in_window class_id row col r i j c)
  then gaussian_value row col r i j else 0%R.

Definition draw_gaussian (hm_shape : list Z) (blob : list R) (dtype : DType)
    : tensor3 R :=
  match hm_shape, blob with
  | [h; w; c], [class_id; row; col; radius] =>
      let class_id := cast_int32 class_id in
      let row := cast_int32 row in
      let col := cast_int32 col in
      let r := cast_int32 radius in
      (fun i =>
         (fun j => (fun k => splat_value class_id row col r i j k) <$> seqZ 0 c)
           <$> seqZ 0 w)
        <$> seqZ 0 h
  | _, _ => []
  end.

(** ** Elementwise arithmetic on rank-1 tensors *)

Definition vadd : list R -> list R -> list R := zip_with Rplus.
Definition vsub : list R -> list R -> list R := zip_with Rminus.
Definition vmul (v : list R) (k : R) : list R := (fun x => (x * k)%R) <$> v.
Definition vdiv (v : list R) (k : R) : list R := (fun x => (x / k)%R) <$> v.

(** The branch without Gaussians (lines 189-197 of the source): a 1 at the
    centre of every instance. *)
Definition scatter_heatmap (ct_heatmap : tensor3 R) (num_objects : Z)
    (classes scale_yct_floor scale_xct_floor : list R)
    : result (tensor3 R) :=
  idx <- tf_stack [scale_yct_floor; scale_xct_floor; classes];;
  let ct_hm_update_indices : tensor2 Z := fmap (M:=list) cast_int32 <$> idx in
  tensor_scatter_nd_update write3 ct_heatmap ct_hm_update_indices
    (replicate (Z.to_nat num_objects) 1%R).

(** Per-instance readings of the vectorised geometry (lines 110-143 of
    the source), in which the results are stated. *)
Definition scale_yct_of (height_ratio : R) (b : box) : R :=
  ((ymin b + ymax b) / 2 * height_ratio)%R.
Definition scale_xct_of (width_ratio : R) (b : box) : R :=
  ((xmin b + xmax b) / 2 * width_ratio)%R.
Definition ct_offset_row (height_ratio width_ratio : R) (b : box) : list R :=
  [(scale_yct_of height_ratio b - tf_floor (scale_yct_of height_ratio b))%R;
   (scale_xct_of width_ratio b - tf_floor (scale_xct_of width_ratio b))%R].
Definition size_row (height_ratio width_ratio : R) (b : box) : list R :=
  [((ymax b - ymin b) * height_ratio)%R; ((xmax b - xmin b) * width_ratio)%R].
Definition box_index_row (height_ratio width_ratio : R) (b : box) : list Z :=
  [cast_int32 (tf_floor (scale_yct_of height_ratio b));
   cast_int32 (tf_floor (scale_xct_of width_ratio b))].

(** The two scaling factors (lines 107-108 of the source). *)
Definition height_ratio_of (output_size input_size : Z * Z) : R :=
  (IZR output_size.1 / IZR input_size.1)%R.
Definition width_ratio_of (output_size input_size : Z * Z) : R :=
  (IZR output_size.2 / IZR input_size.2)%R.

(** The first [num_detections] instances of a record, box and class side
    by side. *)
Definition instances (labels : Labels) : list (box * Z) :=
  let n := Z.to_nat (num_detections labels) in
  zip (take n (bbox labels)) (take n (classes labels)).

(** The record whose first instances are [insts], followed by padding. *)
Definition padded_record (insts : list (box * Z)) (pad_boxes : list box)
    (pad_classes : list Z) : Labels :=
  mkLabels (insts.*1 ++ pad_boxes) (insts.*2 ++ pad_classes)
    (Z.of_nat (length insts)).

(** The heatmap cell of an instance when no Gaussian is drawn. *)
Definition ct_hm_index (height_ratio width_ratio : R) (class_offset : Z)
    (p : box * Z) : list Z :=
  [cast_int32 (tf_floor (scale_yct_of height_ratio p.1));
   cast_int32 (tf_floor (scale_xct_of width_ratio p.1));
   cast_int32 (IZR (p.2 - class_offset))].

(** The bundle of a record without objects. *)
Definition zero_bundle (output_size : Z * Z) (num_classes max_num_instances : Z)
    : Bundle :=
  let m := Z.to_nat max_num_instances in
  mkBundle
    (replicate (Z.to_nat output_size.1)
       (replicate (Z.to_nat output_size.2)
          (replicate (Z.to_nat num_classes) 0%R)))
    (replicate m [0; 0]%R) (replicate m [0; 0]%R)
    (replicate m 0%Z) (replicate m [0; 0]%Z).

(** The four per-instance arrays, row by row: the rows of the given boxes
    followed by zero rows up to the capacity [m]. *)
Definition encode_targets (ct_heatmap : tensor3 R)
    (height_ratio width_ratio : R) (boxes : list box) (m : nat) : Bundle :=
  let pad := m - length boxes in
  mkBundle ct_heatmap
    ((ct_offset_row height_ratio width_ratio <$> boxes)
       ++ replicate pad [0; 0]%R)
    ((size_row height_ratio width_ratio <$> boxes) ++ replicate pad [0; 0]%R)
    (replicate (length boxes) 1%Z ++ replicate pad 0%Z)
    ((box_index_row height_ratio width_ratio <$> boxes)
       ++ replicate pad [0; 0]%Z).

(** ** The builder *)

Section Builder.

(** The builder is parametric in the two remaining helpers of
    [preprocess_ops]: [gaussian_radius det_size min_overlap], whose
    quadratics the specification does not spell out, and
    [draw_gaussian hm_shape blob dtype], of which the definition above is
    the instance that the specification describes.  Whatever is proved of
    the builder holds for every choice of the two. *)
Variable gaussian_radius : list R -> R -> R.
Variable draw_gaussian : list Z -> list R -> DType -> tensor3 R.

(** The radius of every instance (lines 165-174 of the source). *)
Definition radius (box_heights_widths : tensor2 R) (num_objects : Z)
    (max_num_instances gaussian_rad : Z) (gaussian_iou : R) : list R :=
  if decide (gaussian_rad = (-1)%Z) then
    let radius := (fun x => gaussian_radius x gaussian_iou)
                    <$> (fmap (M:=list) tf_ceil <$> box_heights_widths) in
    (fun r => Rmax (tf_floor r) 1%R) <$> radius
  else
    let radius := replicate (Z.to_nat max_num_instances) (IZR gaussian_rad) in
    slice_to num_objects radius.

(** The Gaussian branch (lines 163-186 of the source): one splat per
    instance, combined by an elementwise maximum. *)
Definition splat_heatmap (hm_shape : list Z) (dtype : DType)
    (box_heights_widths : tensor2 R) (num_objects : Z)
    (max_num_instances gaussian_rad : Z) (gaussian_iou : R)
    (classes scale_yct_floor scale_xct_floor : list R)
    : result (tensor3 R) :=
  let radius : list R :=
    radius box_heights_widths num_objects max_num_instances
      gaussian_rad gaussian_iou in
  ct_blobs <-
    tf_stack [classes; scale_yct_floor; scale_xct_floor; radius];;
  let ct_gaussians : list (tensor3 R) :=
    (fun x => draw_gaussian hm_shape x dtype) <$> ct_blobs in
  reduce_max ct_gaussians.

(** The radius and the blob of one instance, as [radius] and the stack
    of [ct_blobs] hold them. *)
Definition radius_of (height_ratio width_ratio : R) (gaussian_rad : Z)
    (gaussian_iou : R) (b : box) : R :=
  if decide (gaussian_rad = (-1)%Z) then
    Rmax
      (tf_floor
         (gaussian_radius (tf_ceil <$> size_row height_ratio width_ratio b)
            gaussian_iou)) 1%R
  else IZR gaussian_rad.

Definition ct_blob (height_ratio width_ratio : R) (gaussian_rad : Z)
    (gaussian_iou : R) (class_offset : Z) (p : box * Z) : list R :=
  [IZR (p.2 - class_offset);
   tf_floor (scale_yct_of height_ratio p.1);
   tf_floor (scale_xct_of width_ratio p.1);
   radius_of height_ratio width_ratio gaussian_rad gaussian_iou p.1].

(** What an instance puts in cell [(i, j, c)] of its splat, and whether
    it reaches that cell at all (in its window, or at its centre when no
    Gaussian is drawn). *)
Definition splat_cell (height_ratio width_ratio : R) (gaussian_rad : Z)
    (gaussian_iou : R) (class_offset : Z) (p : box * Z) (i j c : Z) : R :=
  splat_value (p.2 - class_offset)
    (Zfloor (scale_yct_of height_ratio p.1))
    (Zfloor (scale_xct_of width_ratio p.1))
    (cast_int32
       (radius_of height_ratio width_ratio gaussian_rad gaussian_iou p.1))
    i j c.

Definition contributes (use_gaussian_bump : bool)
    (height_ratio width_ratio : R) (gaussian_rad : Z) (gaussian_iou : R)
    (class_offset : Z) (p : box * Z) (i j c : Z) : Prop :=
  if use_gaussian_bump then
    in_window (p.2 - class_offset)
      (Zfloor (scale_yct_of height_ratio p.1))
      (Zfloor (scale_xct_of width_ratio p.1))
      (cast_int32
         (radius_of height_ratio width_ratio gaussian_rad gaussian_iou p.1))
      i j c
  else
    [i; j; c] = [Zfloor (scale_yct_of height_ratio p.1);
                 Zfloor (scale_xct_of width_ratio p.1);
                 (p.2 - class_offset)%Z].

Definition build_heatmap_and_regressed_features
    (labels : Labels) (output_size input_size : Z * Z)
    (num_classes max_num_instances : Z) (use_gaussian_bump : bool)
    (gaussian_rad : Z) (gaussian_iou : R) (class_offset : Z)
    (dtype : string) : result Bundle :=
  dtype <- parse_dtype dtype;;
  let num_objects := num_detections labels in
  let boxes : list box := slice_to num_objects (bbox labels) in
  let classes : list R :=
    slice_to num_objects
      ((fun c => IZR (c - class_offset)) <$> classes labels) in
  let input_h := IZR input_size.1 in
  let input_w := IZR input_size.2 in
  let output_h := IZR output_size.1 in
  let output_w := IZR output_size.2 in
  let width_ratio := (output_w / input_w)%R in
  let height_ratio := (output_h / input_h)%R in
  let ytl : list R := ymin <$> boxes in
  let ybr : list R := ymax <$> boxes in
  let xtl : list R := xmin <$> boxes in
  let xbr : list R := xmax <$> boxes in
  let yct : list R := vdiv (vadd ytl ybr) 2 in
  let xct : list R := vdiv (vadd xtl xbr) 2 in
  let scale_xct : list R := vmul xct width_ratio in
  let scale_yct : list R := vmul yct height_ratio in
  let scale_xct_floor : list R := tf_floor <$> scale_xct in
  let scale_yct_floor : list R := tf_floor <$> scale_yct in
  ct_offset_values <-
    tf_stack [vsub scale_yct scale_yct_floor; vsub scale_xct scale_xct_floor];;
  let box_widths : list R := vsub (xmax <$> boxes) (xmin <$> boxes) in
  let box_heights : list R := vsub (ymax <$> boxes) (ymin <$> boxes) in
  let box_widths : list R := vmul box_widths width_ratio in
  let box_heights : list R := vmul box_heights height_ratio in
  box_heights_widths <- tf_stack [box_heights; box_widths];;
  let hm_shape := [output_size.1; output_size.2; num_classes] in
  ct_heatmap <- tf_zeros3 0%R output_size.1 output_size.2 num_classes;;
  ct_offset <- tf_zeros2 0%R max_num_instances 2;;
  size <- tf_zeros2 0%R max_num_instances 2;;
  box_mask <- tf_zeros1 0%Z max_num_instances;;
  box_indices <- tf_zeros2 0%Z max_num_instances 2;;
  if decide (0 < num_objects)%Z then
    ct_heatmap <-
      (if use_gaussian_bump then
         splat_heatmap hm_shape dtype box_heights_widths num_objects
           max_num_instances gaussian_rad gaussian_iou classes
           scale_yct_floor scale_xct_floor
       else
         scatter_heatmap ct_heatmap num_objects classes scale_yct_floor
           scale_xct_floor);;
    let update_indices : tensor3 Z :=
      reshape_pairs (cartesian_product (tf_range num_objects) (tf_range 2)) in
    ct_offset <-
      tensor_scatter_nd_update2 write2 ct_offset update_indices
        ct_offset_values;;
    size <-
      tensor_scatter_nd_update2 write2 size update_indices
        box_heights_widths;;
    let mask_indices : tensor2 Z := (fun i : Z => [i]) <$> tf_range num_objects in
    let mask_values : list Z := replicate (Z.to_nat num_objects) 1%Z in
    box_mask <-
      tensor_scatter_nd_update write1 box_mask mask_indices mask_values;;
    idx <- tf_stack [scale_yct_floor; scale_xct_floor];;
    let box_index_values : tensor2 Z := fmap (M:=list) cast_int32 <$> idx in
    box_indices <-
      tensor_scatter_nd_update2 write2 box_indices update_indices
        box_index_values;;
    Ok (mkBundle ct_heatmap ct_offset size box_mask box_indices)
  else
    Ok (mkBundle ct_heatmap ct_offset size box_mask box_indices).

(** The heatmap, instance by instance. *)
Definition ct_heatmap_of (output_size : Z * Z) (num_classes : Z)
    (use_gaussian_bump : bool) (gaussian_rad : Z) (gaussian_iou : R)
    (class_offset : Z) (height_ratio width_ratio : R) (dtype : DType)
    (zeros : tensor3 R) (insts : list (box * Z)) : result (tensor3 R) :=
  if use_gaussian_bump then
    reduce_max
      ((fun p =>
          draw_gaussian [output_size.1; output_size.2; num_classes]
            (ct_blob height_ratio width_ratio gaussian_rad gaussian_iou
               class_offset p) dtype) <$> insts)
  else
    tensor_scatter_nd_update write3 zeros
      (ct_hm_index height_ratio width_ratio class_offset <$> insts)
      (replicate (length insts) 1%R).

(** The builder as an explicit pass over the first [num_detections]
    instances and pre-zeroed outputs of fixed capacity; [build_eq] below
    proves that the vectorised code above computes exactly this. *)
Definition build_by_instance
    (labels : Labels) (output_size input_size : Z * Z)
    (num_classes max_num_instances : Z) (use_gaussian_bump : bool)
    (gaussian_rad : Z) (gaussian_iou : R) (class_offset : Z)
    (dtype : string) : result Bundle :=
  dtype <- parse_dtype dtype;;
  zeros <- tf_zeros3 0%R output_size.1 output_size.2 num_classes;;
  m <- dim max_num_instances;;
  let n := Z.to_nat (num_detections labels) in
  let height_ratio := height_ratio_of output_size input_size in
  let width_ratio := width_ratio_of output_size input_size in
  if decide (0 < num_detections labels)%Z then
    if decide (n <= length (bbox labels) /\ n <= length (classes labels)
               /\ n <= m) then
      ct_heatmap <-
        ct_heatmap_of output_size num_classes use_gaussian_bump
          gaussian_rad gaussian_iou class_offset height_ratio width_ratio
          dtype zeros (instances labels);;
      Ok (encode_targets ct_heatmap height_ratio width_ratio
            (take n (bbox labels)) m)
    else Raise InvalidArgumentError
  else Ok (zero_bundle output_size num_classes max_num_instances).

End Builder.

(** ** The remaining helpers and the record of the source's own run *)

(** The cell-wise maximum of two readings. *)
Definition opt_max (x y : option R) : option R :=
  match x, y with Some a, Some b => Some (Rmax a b) | _, _ => None end.

(** A radius estimator to put in place of the absent
    [preprocess_ops.gaussian_radius] in the examples. *)
Definition unit_radius (det_size : list R) (min_overlap : R) : R := 1%R.

(** The record that the source builds under [__main__]: three boxes padded
    with zeros to 128 rows, their classes padded with -1. *)
Definition main_boxes : list box :=
  [Box 10 300 15 370; Box 100 300 150 370; Box 15 100 200 170]
    ++ replicate 125 (Box 0 0 0 0).
Definition main_classes : list Z := [1; 1; 1]%Z ++ replicate 125 (-1)%Z.
Definition main_labels : Labels := mkLabels main_boxes main_classes 3.

(** The call of [__main__], with the defaults of the signature. *)
Definition main_call (gaussian_radius : list R -> R -> R)
    (draw_gaussian : list Z -> list R -> DType -> tensor3 R) : result Bundle :=
  build_heatmap_and_regressed_features gaussian_radius draw_gaussian
    main_labels (128, 128)%Z (512, 512)%Z 90 128 true (-1) 0.7%R 0 "float32".

(** * Properties *)

(** ** The tensor operations on small inputs *)

Example slice_to_negative_bound : slice_to (-1) [1; 2; 3]%Z = [1; 2]%Z.
Proof. reflexivity. Qed.

Example tf_stack_columns :
  tf_stack [[1; 2]; [3; 4]; [5; 6]]%Z = Ok [[1; 3; 5]; [2; 4; 6]]%Z.
Proof. reflexivity. Qed.

Example tf_stack_ragged :
  tf_stack [[1; 2]; [3]]%Z = Raise InvalidArgumentError.
Proof. reflexivity. Qed.

Example update_indices_of_two_rows :
  reshape_pairs (cartesian_product (tf_range 2) (tf_range 2))
  = [[[0; 0]; [0; 1]]; [[1; 0]; [1; 1]]]%Z.
Proof. reflexivity. Qed.

Example scatter_keeps_the_last_update :
  tensor_scatter_nd_update write1 [0; 0; 0]%Z [[1]; [1]]%Z [5; 7]%Z
  = Ok [0; 7; 0]%Z.
Proof. reflexivity. Qed.

Example scatter_out_of_range :
  tensor_scatter_nd_update write1 [0; 0]%Z [[2]]%Z [5]%Z
  = Raise InvalidArgumentError.
Proof. reflexivity. Qed.

Example scatter_shape_mismatch :
  tensor_scatter_nd_update2 write2 [[0; 0]; [0; 0]]%Z
    [[[0; 0]; [0; 1]]; [[1; 0]; [1; 1]]]%Z [[5; 7]]%Z
  = Raise InvalidArgumentError.
Proof. reflexivity. Qed.

(** ** The error monad *)

Lemma bind_Ok {A B} (m : result A) (f : A -> result B) (b : B) :
  bind m f = Ok b <-> exists a, m = Ok a /\ f a = Ok b.
Proof.
  destruct m as [a|e]; simpl; split.
  - eauto.
  - intros (a' & [= <-] & H). exact H.
  - discriminate.
  - intros (a' & [=] & _).
Qed.

Lemma is_Ok_Ok {A} (a : A) : is_Ok (Ok a).
Proof. by exists a. Qed.

Lemma not_is_Ok_Raise {A} (e : exn) : ~ is_Ok (Raise (A:=A) e).
Proof. intros [a [=]]. Qed.

#[global] Hint Resolve is_Ok_Ok : core.

Ltac inv_bind H :=
  let a := fresh "a" in
  let Ha := fresh "Ha" in
  apply bind_Ok in H as (a & Ha & H).

(** ** Reading and writing cells *)

Lemma laws0 {A} : tensor_laws (@read0 A) (@write0 A) (fun _ _ => True).
Proof.
  split.
  - by split.
  - intros t [|i ix] v [x Hx]; simpl in *; [eauto | discriminate].
  - intros t [|i ix] v t'; simpl; [eauto | discriminate].
  - done.
  - intros t [|i ix] v t' ix'; simpl; [|discriminate].
    intros [= <-]. by destruct ix'.
  - intros t t' _ H. specialize (H []). simpl in H. congruence.
Qed.

Section LawsAt.
Context {T A : Type}.
Variable rd : T -> list Z -> option A.
Variable w : T -> list Z -> A -> result T.
Variable sh : relation T.
Hypothesis laws : tensor_laws rd w sh.

Lemma write_at_inv (t : list T) ix v t' :
  write_at w t ix v = Ok t' ->
  exists i ix' s s', ix = i :: ix' /\ (0 <= i)%Z /\
    t !! Z.to_nat i = Some s /\ w s ix' v = Ok s' /\
    t' = <[Z.to_nat i := s']> t.
Proof.
  destruct ix as [|i ix']; simpl; [discriminate|].
  destruct (decide (0 <= i)%Z) as [Hi|]; [|discriminate].
  destruct (t !! Z.to_nat i) as [s|] eqn:Hs; [|discriminate].
  intros H. inv_bind H. injection H as <-.
  exists i, ix', s, a. done.
Qed.

Lemma Forall2_insert_same (t : list T) i s s' :
  t !! i = Some s -> sh s s' -> Forall2 sh t (<[i:=s']> t).
Proof.
  pose proof (tl_equiv _ _ _ laws) as Heq.
  revert i. induction t as [|x t IH]; intros [|i] Hs Hsh; simpl in *;
    try discriminate.
  - injection Hs as ->. constructor; [done|]. apply Forall2_same_length_lookup.
    split; [done|]. intros j y z Hy Hz. assert (y = z) as -> by congruence.
    reflexivity.
  - constructor; [reflexivity|]. by apply IH.
Qed.

Lemma read_at_cons (t : list T) i ix :
  read_at rd t (i :: ix) =
  if decide (0 <= i)%Z then s ← t !! Z.to_nat i; rd s ix else None.
Proof. reflexivity. Qed.

Lemma laws_at : tensor_laws (read_at rd) (write_at w) (Forall2 sh).
Proof.
  pose proof (tl_equiv _ _ _ laws) as Heq.
  split.
  - split.
    + intros l. apply Forall2_same_length_lookup. split; [done|].
      intros j y z Hy Hz. assert (y = z) as -> by congruence. reflexivity.
    + intros l k H. induction H; constructor; [by symmetry | done].
    + intros l k m H. revert m. induction H; intros m Hm;
        inversion Hm; subst; constructor; [by etrans | eauto].
  - intros t [|i ix] v [x Hx]; simpl in *; [discriminate|].
    destruct (decide (0 <= i)%Z); [|discriminate].
    destruct (t !! Z.to_nat i) as [s|]; simpl in *; [|discriminate].
    destruct (tl_write_ok _ _ _ laws s ix v) as [s' ->]; [by eauto|].
    simpl. eauto.
  - intros t ix v t' H.
    apply write_at_inv in H as (i & ix' & s & s' & -> & Hi & Hs & Hw & ->).
    simpl. rewrite decide_True by done. rewrite Hs. simpl.
    by eapply tl_write_valid.
  - intros t ix v t' H.
    apply write_at_inv in H as (i & ix' & s & s' & -> & Hi & Hs & Hw & ->).
    eapply Forall2_insert_same; [done|]. by eapply tl_write_shape.
  - intros t ix v t' jx H.
    apply write_at_inv in H as (i & ix' & s & s' & -> & Hi & Hs & Hw & ->).
    destruct jx as [|j jx']; [by rewrite decide_False by done|].
    rewrite !read_at_cons.
    destruct (decide (0 <= j)%Z) as [Hj|Hj].
    + destruct (decide (j = i)) as [->|Hne].
      * rewrite list_lookup_insert_eq by (by eapply lookup_lt_Some).
        simpl. rewrite (tl_read_write _ _ _ laws s ix' v s' jx' Hw).
        rewrite Hs. simpl.
        destruct (decide (jx' = ix')) as [->|Hne'].
        -- by rewrite decide_True.
        -- rewrite decide_False by (intros ?; simplify_eq); done.
      * rewrite list_lookup_insert_ne by lia.
        rewrite decide_False by (intros ?; simplify_eq); done.
    + rewrite decide_False by (intros ?; simplify_eq; lia); done.
  - intros t t' Hsh. induction Hsh as [|x y l k Hxy Hlk IH]; intros H; [done|].
    f_equal.
    + eapply tl_ext; [done..|]. intros ix. specialize (H (0%Z :: ix)).
      simpl in H. done.
    + apply IH. intros [|i ix]; [done|]. rewrite !read_at_cons.
      destruct (decide (0 <= i)%Z) as [Hi|]; [|done].
      specialize (H ((i + 1)%Z :: ix)). rewrite !read_at_cons in H.
      rewrite !decide_True in H by lia.
      replace (Z.to_nat (i + 1)) with (S (Z.to_nat i)) in H by lia.
      done.
Qed.
End LawsAt.

Lemma laws1 {A} : tensor_laws (@read1 A) (@write1 A) (Forall2 (fun _ _ => True)).
Proof. apply laws_at, laws0. Qed.

Lemma laws2 {A} :
  tensor_laws (@read2 A) (@write2 A) (Forall2 (Forall2 (fun _ _ => True))).
Proof. apply laws_at, laws1. Qed.

Lemma laws3 {A} :
  tensor_laws (@read3 A) (@write3 A)
    (Forall2 (Forall2 (Forall2 (fun _ _ => True)))).
Proof. apply laws_at, laws2. Qed.

(** ** Scatter updates *)

Section ApplyUpdates.
Context {T A : Type}.
Variable rd : T -> list Z -> option A.
Variable w : T -> list Z -> A -> result T.
Variable sh : relation T.
Hypothesis laws : tensor_laws rd w sh.

Lemma write_keeps_valid t ix v t' jx :
  w t ix v = Ok t' -> is_Some (rd t' jx) <-> is_Some (rd t jx).
Proof.
  intros H. rewrite (tl_read_write _ _ _ laws _ _ _ _ jx H).
  case_decide as Hjx; [|done]. subst jx.
  split; [|by eauto]. intros _. by eapply tl_write_valid.
Qed.

(** After a scatter every cell holds the last update sent to it, or its
    old value when none was. *)
Lemma apply_updates_inv ws : forall t t',
  apply_updates w t ws = Ok t' ->
  sh t t' /\
  Forall (fun p => is_Some (rd t p.1)) ws /\
  forall ix, rd t' ix = from_option Some (rd t ix) (last_update ix ws).
Proof.
  pose proof (tl_equiv _ _ _ laws) as Heq.
  induction ws as [|[ix v] ws IH]; intros t t' H; simpl in H.
  - injection H as <-. split; [reflexivity|]. split; [constructor|done].
  - inv_bind H. destruct (IH _ _ H) as (Hsh & Hval & Hrd).
    split; [|split].
    + etrans; [|exact Hsh]. by eapply tl_write_shape.
    + constructor; [by eapply tl_write_valid|].
      eapply Forall_impl; [exact Hval|]. intros p Hp.
      by apply (write_keeps_valid _ _ _ _ p.1 Ha).
    + intros jx. rewrite Hrd. simpl.
      destruct (last_update jx ws); [done|]. simpl.
      rewrite (tl_read_write _ _ _ laws _ _ _ _ jx Ha).
      destruct (decide (ix = jx)) as [->|Hne].
      * by rewrite decide_True.
      * by rewrite decide_False.
Qed.

Lemma apply_updates_ok ws : forall t,
  Forall (fun p => is_Some (rd t p.1)) ws -> is_Ok (apply_updates w t ws).
Proof.
  induction ws as [|[ix v] ws IH]; intros t H; simpl; [done|].
  inversion H as [|? ? Hix Hws]; subst.
  destruct (tl_write_ok _ _ _ laws t ix v Hix) as [t1 Ht1].
  rewrite Ht1. simpl. apply IH.
  eapply Forall_impl; [exact Hws|]. intros p Hp.
  by apply (write_keeps_valid _ _ _ _ p.1 Ht1).
Qed.
End ApplyUpdates.

(** ** Stacking columns *)

Lemma tf_stack_pair {X A} (f g : X -> A) (l : list X) :
  tf_stack [f <$> l; g <$> l] = Ok ((fun x => [f x; g x]) <$> l).
Proof.
  simpl. rewrite decide_True by (by rewrite !length_fmap). f_equal.
  rewrite <- list_fmap_compose.
  by rewrite zip_with_fmap_l, zip_with_fmap_r, zip_with_diag.
Qed.

Lemma tf_stack_cons_inv {A} (c c' : list A) cs rows :
  tf_stack (c :: c' :: cs) = Ok rows ->
  exists rows', tf_stack (c' :: cs) = Ok rows' /\ length c = length rows' /\
    rows = zip_with cons c rows'.
Proof.
  intros H. change (tf_stack (c :: c' :: cs)) with
    (rows <- tf_stack (c' :: cs);;
     if decide (length c = length rows) then Ok (zip_with cons c rows)
     else Raise InvalidArgumentError) in H.
  inv_bind H. case_decide; [|discriminate]. injection H as <-. eauto.
Qed.

Lemma tf_stack_cons {A} (c c' : list A) cs rows' :
  tf_stack (c' :: cs) = Ok rows' -> length c = length rows' ->
  tf_stack (c :: c' :: cs) = Ok (zip_with cons c rows').
Proof.
  intros H Hl. change (tf_stack (c :: c' :: cs)) with
    (rows <- tf_stack (c' :: cs);;
     if decide (length c = length rows) then Ok (zip_with cons c rows)
     else Raise InvalidArgumentError).
  rewrite H. simpl. by rewrite decide_True.
Qed.

(** ** The vectorised geometry, instance by instance *)

Lemma scale_yct_column (height_ratio : R) (boxes : list box) :
  vmul (vdiv (vadd (ymin <$> boxes) (ymax <$> boxes)) 2) height_ratio
  = scale_yct_of height_ratio <$> boxes.
Proof.
  unfold vmul, vdiv, vadd.
  rewrite zip_with_fmap_l, zip_with_fmap_r, zip_with_diag.
  by rewrite <- !list_fmap_compose.
Qed.

Lemma scale_xct_column (width_ratio : R) (boxes : list box) :
  vmul (vdiv (vadd (xmin <$> boxes) (xmax <$> boxes)) 2) width_ratio
  = scale_xct_of width_ratio <$> boxes.
Proof.
  unfold vmul, vdiv, vadd.
  rewrite zip_with_fmap_l, zip_with_fmap_r, zip_with_diag.
  by rewrite <- !list_fmap_compose.
Qed.

Lemma vsub_floor_column {X} (f : X -> R) (l : list X) :
  vsub (f <$> l) (tf_floor <$> (f <$> l))
  = (fun x => (f x - tf_floor (f x))%R) <$> l.
Proof.
  unfold vsub. rewrite <- list_fmap_compose.
  by rewrite zip_with_fmap_l, zip_with_fmap_r, zip_with_diag.
Qed.

Lemma box_extent_column (f g : box -> R) (ratio : R) (boxes : list box) :
  vmul (vsub (f <$> boxes) (g <$> boxes)) ratio
  = (fun b => ((f b - g b) * ratio)%R) <$> boxes.
Proof.
  unfold vmul, vsub.
  rewrite zip_with_fmap_l, zip_with_fmap_r, zip_with_diag.
  by rewrite <- !list_fmap_compose.
Qed.

(** ** The index tensors of the encoder *)

Lemma tf_range_2 : tf_range 2 = [0; 1]%Z.
Proof. reflexivity. Qed.

Lemma update_indices_rows (xs : list Z) :
  reshape_pairs (cartesian_product xs [0; 1]%Z)
  = (fun i => [[i; 0]; [i; 1]]%Z) <$> xs.
Proof. induction xs as [|x xs IH]; [done|]. simpl. by f_equal. Qed.

(** ** Scatter into the leading rows *)

Lemma write1_nat {A} (t : list A) (i : nat) (v x : A) :
  t !! i = Some x -> write1 t [Z.of_nat i] v = Ok (<[i := v]> t).
Proof.
  intros H. unfold write1. simpl. rewrite decide_True by lia.
  rewrite Nat2Z.id, H. done.
Qed.

Lemma write1_inv {A} (t : list A) (i : Z) (v : A) t' :
  write1 t [i] v = Ok t' ->
  (0 <= i)%Z /\ Z.to_nat i < length t /\ t' = <[Z.to_nat i := v]> t.
Proof.
  intros H. unfold write1 in H.
  apply write_at_inv in H as (j & ix' & s & s' & [= <- <-] & Hj & Hs & Hw & ->).
  injection Hw as <-. split; [done|]. split; [|done]. by eapply lookup_lt_Some.
Qed.

Lemma write2_inv {A} (t : list (list A)) (i j : Z) (v : A) t' :
  write2 t [i; j] v = Ok t' ->
  exists row, (0 <= i)%Z /\ t !! Z.to_nat i = Some row /\ (0 <= j)%Z /\
    Z.to_nat j < length row /\
    t' = <[Z.to_nat i := <[Z.to_nat j := v]> row]> t.
Proof.
  intros H. unfold write2 in H.
  apply write_at_inv in H as (i' & ix' & s & s' & [= <- <-] & Hi & Hs & Hw & ->).
  apply write1_inv in Hw as (Hj & Hlen & ->). by exists s.
Qed.

Lemma scatter1_rows_inv {A} (n : nat) : forall (k : nat) (vals t t' : list A),
  k <= length t ->
  tensor_scatter_nd_update write1 t
    ((fun i => [i]) <$> (Z.of_nat <$> seq k n)) vals = Ok t' ->
  length vals = n /\ k + n <= length t /\
  t' = take k t ++ vals ++ drop (k + n) t.
Proof.
  unfold tensor_scatter_nd_update.
  induction n as [|n IH]; intros k vals t t' Hkt H; inv_bind H.
  - destruct vals; [|discriminate]. injection Ha as <-. injection H as <-.
    split; [done|]. split; [lia|]. simpl. by rewrite Nat.add_0_r, take_drop.
  - destruct vals as [|v vals]; [discriminate|]. simpl in Ha. inv_bind Ha.
    injection Ha as <-. simpl in H. inv_bind H.
    apply write1_inv in Ha as (_ & Hk & ->). rewrite Nat2Z.id in *.
    destruct (IH (S k) vals (<[k:=v]> t) t') as (Hl & Hb & ->).
    { rewrite length_insert. lia. }
    { apply bind_Ok. exists a0. split; [exact Ha0 | exact H]. }
    rewrite length_insert in Hb. split; [simpl; lia|]. split; [lia|].
    rewrite drop_insert_lt by lia.
    destruct (lookup_lt_is_Some_2 t k Hk) as [x Hx].
    rewrite (take_S_r _ _ v) by (by apply list_lookup_insert_eq).
    rewrite take_insert_ge by lia.
    rewrite <- app_assoc. simpl. by replace (k + S n) with (S (k + n)) by lia.
Qed.

Lemma scatter2_rows_inv {A} (n : nat) :
  forall (k : nat) (vals t t' : list (list A)),
  Forall (fun r => length r = 2) t -> k <= length t ->
  tensor_scatter_nd_update2 write2 t
    ((fun i => [[i; 0]; [i; 1]]%Z) <$> (Z.of_nat <$> seq k n)) vals = Ok t' ->
  length vals = n /\ k + n <= length t /\
  t' = take k t ++ vals ++ drop (k + n) t.
Proof.
  unfold tensor_scatter_nd_update2.
  induction n as [|n IH]; intros k vals t t' Ht Hkt H; inv_bind H.
  - destruct vals; [|discriminate]. injection Ha as <-. injection H as <-.
    split; [done|]. split; [lia|]. simpl. by rewrite Nat.add_0_r, take_drop.
  - destruct vals as [|r vals]; [discriminate|]. simpl in Ha. inv_bind Ha.
    destruct r as [|x [|y [|z r]]]; try discriminate.
    injection Ha0 as <-. inv_bind Ha. injection Ha as <-.
    cbn [app apply_updates] in H. inv_bind H. inv_bind H.
    apply write2_inv in Ha as (row & _ & Hrow & _ & _ & ->).
    rewrite Nat2Z.id in *.
    apply write2_inv in Ha1 as (row' & _ & Hrow' & _ & _ & ->).
    rewrite Nat2Z.id in *.
    assert (Hk : k < length t) by (by eapply lookup_lt_Some).
    rewrite list_lookup_insert_eq in Hrow' by done. injection Hrow' as <-.
    rewrite list_insert_insert_eq in H.
    assert (length row = 2) as Hrow2.
    { eapply Forall_lookup_1 in Ht; [|exact Hrow]. done. }
    destruct row as [|p [|q [|? ?]]]; try discriminate. simpl in H.
    destruct (IH (S k) vals (<[k:=[x; y]]> t) t') as (Hl & Hb & ->).
    { apply Forall_insert; [done|done]. }
    { rewrite length_insert. lia. }
    { apply bind_Ok. exists a0. split; [exact Ha0 | exact H]. }
    rewrite length_insert in Hb. split; [simpl; lia|]. split; [lia|].
    rewrite drop_insert_lt by lia.
    rewrite (take_S_r _ _ [x; y]) by (by apply list_lookup_insert_eq).
    rewrite take_insert_ge by lia.
    rewrite <- app_assoc. simpl. by replace (k + S n) with (S (k + n)) by lia.
Qed.

(** ** Allocation and slicing *)

Lemma dim_inv (n : Z) (k : nat) : dim n = Ok k -> (0 <= n)%Z /\ k = Z.to_nat n.
Proof. unfold dim. case_decide; [|discriminate]. by intros [= <-]. Qed.

Lemma dim_nonneg (n : Z) : (0 <= n)%Z -> dim n = Ok (Z.to_nat n).
Proof. intros H. unfold dim. by rewrite decide_True. Qed.

Lemma tf_zeros1_inv {A} (z : A) n t :
  tf_zeros1 z n = Ok t -> (0 <= n)%Z /\ t = replicate (Z.to_nat n) z.
Proof.
  unfold tf_zeros1. intros H. inv_bind H.
  apply dim_inv in Ha as [? ->]. by injection H as <-.
Qed.

Lemma tf_zeros2_inv {A} (z : A) n m t :
  tf_zeros2 z n m = Ok t ->
  (0 <= n)%Z /\ (0 <= m)%Z /\
  t = replicate (Z.to_nat n) (replicate (Z.to_nat m) z).
Proof.
  unfold tf_zeros2. intros H. do 2 inv_bind H.
  apply dim_inv in Ha as [? ->]. apply dim_inv in Ha0 as [? ->].
  by injection H as <-.
Qed.

Lemma tf_zeros3_inv {A} (z : A) n m k t :
  tf_zeros3 z n m k = Ok t ->
  (0 <= n)%Z /\ (0 <= m)%Z /\ (0 <= k)%Z /\
  t = replicate (Z.to_nat n)
        (replicate (Z.to_nat m) (replicate (Z.to_nat k) z)).
Proof.
  unfold tf_zeros3. intros H. do 3 inv_bind H.
  apply dim_inv in Ha as [? ->]. apply dim_inv in Ha0 as [? ->].
  apply dim_inv in Ha1 as [? ->]. by injection H as <-.
Qed.

Lemma slice_to_pos {A} (n : Z) (t : list A) :
  (0 <= n)%Z -> slice_to n t = take (Z.to_nat n) t.
Proof. intros H. unfold slice_to. by rewrite decide_True. Qed.

Lemma cast_int32_IZR (z : Z) : cast_int32 (IZR z) = z.
Proof.
  unfold cast_int32. destruct (Rle_dec 0 (IZR z)).
  - apply ZfloorZ.
  - apply Zceil_eq. lra.
Qed.

Lemma cast_int32_floor (x : R) : cast_int32 (tf_floor x) = Zfloor x.
Proof. apply cast_int32_IZR. Qed.

(** ** Which errors the tensor operations raise *)

Lemma only_tf_Ok {A} (a : A) : only_tf (Ok a).
Proof. intros e [=]. Qed.

Lemma only_tf_Raise {A} : only_tf (Raise (A:=A) InvalidArgumentError).
Proof. by intros e [= <-]. Qed.

Lemma only_tf_bind {A B} (m : result A) (f : A -> result B) :
  only_tf m -> (forall a, only_tf (f a)) -> only_tf (bind m f).
Proof.
  intros Hm Hf e. destruct m as [a|e']; simpl; [apply Hf|].
  intros [= <-]. by apply Hm.
Qed.

Lemma only_tf_not_Ok {A} (m : result A) :
  only_tf m -> (forall a, m <> Ok a) -> m = Raise InvalidArgumentError.
Proof.
  intros Hm Hn. destruct m as [a|e]; [by destruct (Hn a)|].
  by rewrite (Hm e eq_refl).
Qed.

Create HintDb only_tf.
#[global] Hint Resolve only_tf_Ok only_tf_Raise : only_tf.

Ltac only_tf :=
  repeat first
    [ apply only_tf_Ok | apply only_tf_Raise
    | apply only_tf_bind; [|intros ?]
    | case_decide | progress eauto with only_tf ].

Lemma only_tf_dim n : only_tf (dim n).
Proof. unfold dim. only_tf. Qed.
#[global] Hint Resolve only_tf_dim : only_tf.

Lemma only_tf_zeros1 {A} (z : A) n : only_tf (tf_zeros1 z n).
Proof. unfold tf_zeros1. only_tf. Qed.

Lemma only_tf_zeros2 {A} (z : A) n m : only_tf (tf_zeros2 z n m).
Proof. unfold tf_zeros2. only_tf. Qed.

Lemma only_tf_zeros3 {A} (z : A) n m k : only_tf (tf_zeros3 z n m k).
Proof. unfold tf_zeros3. only_tf. Qed.

Lemma only_tf_stack {A} (cols : list (list A)) : only_tf (tf_stack cols).
Proof.
  induction cols as [|c cs IH]; [only_tf|].
  destruct cs as [|c' cs]; [only_tf|].
  change (tf_stack (c :: c' :: cs)) with
    (rows <- tf_stack (c' :: cs);;
     if decide (length c = length rows) then Ok (zip_with cons c rows)
     else Raise InvalidArgumentError).
  only_tf.
Qed.

Lemma only_tf_zip_exact {X Y} (xs : list X) (ys : list Y) :
  only_tf (zip_exact xs ys).
Proof.
  revert ys. induction xs as [|x xs IH]; intros [|y ys]; simpl; only_tf.
Qed.
#[global] Hint Resolve only_tf_zip_exact : only_tf.

Lemma only_tf_zip_exact2 {X Y} (xss : list (list X)) (yss : list (list Y)) :
  only_tf (zip_exact2 xss yss).
Proof.
  revert yss. induction xss as [|x xs IH]; intros [|y ys]; simpl; only_tf.
Qed.

Lemma only_tf_write0 {A} (t : A) ix v : only_tf (write0 t ix v).
Proof. destruct ix; simpl; only_tf. Qed.

Lemma only_tf_write_at {T A} (w : T -> list Z -> A -> result T) :
  (forall s ix v, only_tf (w s ix v)) ->
  forall t ix v, only_tf (write_at w t ix v).
Proof.
  intros Hw t [|i ix] v; simpl; [only_tf|]. case_decide; [|only_tf].
  destruct (t !! Z.to_nat i); only_tf.
Qed.

Lemma only_tf_write1 {A} (t : list A) ix v : only_tf (write1 t ix v).
Proof. apply only_tf_write_at, only_tf_write0. Qed.

Lemma only_tf_write2 {A} (t : list (list A)) ix v : only_tf (write2 t ix v).
Proof. apply only_tf_write_at, @only_tf_write1. Qed.

Lemma only_tf_write3 {A} (t : list (list (list A))) ix v :
  only_tf (write3 t ix v).
Proof. apply only_tf_write_at, @only_tf_write2. Qed.

Lemma only_tf_apply_updates {T A} (w : T -> list Z -> A -> result T) ws :
  (forall s ix v, only_tf (w s ix v)) ->
  forall t, only_tf (apply_updates w t ws).
Proof.
  intros Hw. induction ws as [|[ix v] ws IH]; intros t; simpl; only_tf.
Qed.

Lemma only_tf_scatter {T A} (w : T -> list Z -> A -> result T) t idx ups :
  (forall s ix v, only_tf (w s ix v)) ->
  only_tf (tensor_scatter_nd_update w t idx ups).
Proof.
  intros Hw. unfold tensor_scatter_nd_update.
  apply only_tf_bind; [apply only_tf_zip_exact|].
  intros ws. by apply only_tf_apply_updates.
Qed.

Lemma only_tf_scatter2 {T A} (w : T -> list Z -> A -> result T) t idx ups :
  (forall s ix v, only_tf (w s ix v)) ->
  only_tf (tensor_scatter_nd_update2 w t idx ups).
Proof.
  intros Hw. unfold tensor_scatter_nd_update2.
  apply only_tf_bind; [apply only_tf_zip_exact2|].
  intros ws. by apply only_tf_apply_updates.
Qed.

Lemma only_tf_reduce_max ts : only_tf (reduce_max ts).
Proof. destruct ts; simpl; only_tf. Qed.

(** ** The encoder's scatters, computed *)

Lemma write2_nat {A} (t : list (list A)) (i : nat) (j : Z) (v : A) row :
  t !! i = Some row -> (0 <= j)%Z -> Z.to_nat j < length row ->
  write2 t [Z.of_nat i; j] v = Ok (<[i := <[Z.to_nat j := v]> row]> t).
Proof.
  intros Hi Hj0 Hj. destruct (lookup_lt_is_Some_2 row _ Hj) as [x Hx].
  unfold write2. cbn [write_at]. rewrite decide_True by lia.
  rewrite Nat2Z.id, Hi. fold (@write1 A).
  rewrite <- (Z2Nat.id j) at 1 by done. rewrite (write1_nat _ _ _ x Hx).
  done.
Qed.

Lemma scatter1_rows {A} (vals : list A) : forall (k : nat) (t : list A),
  k + length vals <= length t ->
  tensor_scatter_nd_update write1 t
    ((fun i => [i]) <$> (Z.of_nat <$> seq k (length vals))) vals
  = Ok (take k t ++ vals ++ drop (k + length vals) t).
Proof.
  unfold tensor_scatter_nd_update.
  induction vals as [|v vals IH]; intros k t Hk; simpl in *.
  - by rewrite Nat.add_0_r, take_drop.
  - specialize (IH (S k) (<[k:=v]> t)). rewrite length_insert in IH.
    specialize (IH ltac:(lia)). apply bind_Ok in IH as (ws & Hws & IH).
    change (zip_exact (list_fmap Z (list Z) (fun i => [i])
              (list_fmap nat Z Z.of_nat (seq (S k) (length vals)))) vals)
      with (zip_exact ((fun i : Z => [i]) <$>
              (Z.of_nat <$> seq (S k) (length vals))) vals).
    rewrite Hws. cbn [bind apply_updates].
    destruct (lookup_lt_is_Some_2 t k ltac:(lia)) as [x Hx].
    rewrite (write1_nat _ _ _ x Hx). cbn [bind]. rewrite IH. f_equal.
    rewrite drop_insert_lt by lia.
    rewrite (take_S_r _ _ v) by (apply list_lookup_insert_eq; lia).
    rewrite take_insert_ge by lia.
    rewrite <- app_assoc. simpl.
    by replace (k + S (length vals)) with (S (k + length vals)) by lia.
Qed.

Lemma scatter2_rows {A} (vals : list (list A)) :
  forall (k : nat) (t : list (list A)),
  Forall (fun r => length r = 2) t ->
  Forall (fun r => length r = 2) vals ->
  k + length vals <= length t ->
  tensor_scatter_nd_update2 write2 t
    ((fun i => [[i; 0]; [i; 1]]%Z) <$> (Z.of_nat <$> seq k (length vals)))
    vals
  = Ok (take k t ++ vals ++ drop (k + length vals) t).
Proof.
  unfold tensor_scatter_nd_update2.
  induction vals as [|r vals IH]; intros k t Ht Hvals Hk; simpl in *.
  - by rewrite Nat.add_0_r, take_drop.
  - inversion Hvals as [|? ? Hr Hvals']; subst.
    destruct r as [|x [|y [|? ?]]]; try discriminate.
    specialize (IH (S k) (<[k:=[x; y]]> t)). rewrite length_insert in IH.
    specialize (IH ltac:(by apply Forall_insert) Hvals' ltac:(lia)).
    apply bind_Ok in IH as (ws & Hws & IH).
    change (zip_exact2 (list_fmap Z (list (list Z))
              (fun i => [[i; 0]; [i; 1]]%Z)
              (list_fmap nat Z Z.of_nat (seq (S k) (length vals)))) vals)
      with (zip_exact2 ((fun i : Z => [[i; 0]; [i; 1]]%Z) <$>
              (Z.of_nat <$> seq (S k) (length vals))) vals).
    rewrite Hws. cbn [bind app apply_updates].
    destruct (lookup_lt_is_Some_2 t k ltac:(lia)) as [row Hrow].
    assert (length row = 2) as Hrow2.
    { eapply Forall_lookup_1 in Ht; [|exact Hrow]. done. }
    destruct row as [|p [|q [|? ?]]]; try discriminate.
    rewrite (write2_nat t k 0 x [p; q] Hrow) by (simpl; lia).
    cbn [bind].
    rewrite (write2_nat _ k 1 y [x; q]);
      [|apply list_lookup_insert_eq; lia | lia | simpl; lia].
    cbn [bind]. rewrite list_insert_insert_eq.
    change (<[Z.to_nat 1:=y]> [x; q]) with [x; y]. rewrite IH. f_equal.
    rewrite drop_insert_lt by lia.
    rewrite (take_S_r _ _ [x; y]) by (apply list_lookup_insert_eq; lia).
    rewrite take_insert_ge by lia.
    rewrite <- app_assoc. simpl.
    by replace (k + S (length vals)) with (S (k + length vals)) by lia.
Qed.

Lemma scatter1_zeros_eq {A} (z : A) (m : nat) (n : Z) (vals : list A) :
  tensor_scatter_nd_update write1 (replicate m z)
    ((fun i => [i]) <$> tf_range n) vals
  = if decide (length vals = Z.to_nat n /\ Z.to_nat n <= m)
    then Ok (vals ++ replicate (m - Z.to_nat n) z)
    else Raise InvalidArgumentError.
Proof.
  unfold tf_range. case_decide as Hc.
  - destruct Hc as [Hl Hm]. rewrite <- Hl in *.
    rewrite scatter1_rows by (rewrite length_replicate; lia).
    by rewrite drop_replicate.
  - apply only_tf_not_Ok; [apply only_tf_scatter, @only_tf_write1|].
    intros t' H. apply scatter1_rows_inv in H as (Hl & Hm & _); [|lia].
    rewrite length_replicate in Hm. apply Hc. split; [done|lia].
Qed.

Lemma scatter2_zeros_eq {A} (z : A) (m : nat) (n : Z) (vals : list (list A)) :
  Forall (fun r => length r = 2) vals ->
  tensor_scatter_nd_update2 write2 (replicate m [z; z])
    (reshape_pairs (cartesian_product (tf_range n) (tf_range 2))) vals
  = if decide (length vals = Z.to_nat n /\ Z.to_nat n <= m)
    then Ok (vals ++ replicate (m - Z.to_nat n) [z; z])
    else Raise InvalidArgumentError.
Proof.
  intros Hvals. rewrite tf_range_2, update_indices_rows. unfold tf_range.
  case_decide as Hc.
  - destruct Hc as [Hl Hm]. rewrite <- Hl in *.
    rewrite scatter2_rows;
      [|by apply Forall_replicate | done | rewrite length_replicate; lia].
    by rewrite drop_replicate.
  - apply only_tf_not_Ok; [apply only_tf_scatter2, @only_tf_write2|].
    intros t' H.
    apply scatter2_rows_inv in H as (Hl & Hm & _); [|by apply Forall_replicate|lia].
    rewrite length_replicate in Hm. apply Hc. split; [done|lia].
Qed.

(** ** Stacks with a column of classes *)

Lemma tf_stack_cons_eq {A} (c c' : list A) cs rows' :
  tf_stack (c' :: cs) = Ok rows' ->
  tf_stack (c :: c' :: cs)
  = if decide (length c = length rows') then Ok (zip_with cons c rows')
    else Raise InvalidArgumentError.
Proof.
  intros H. change (tf_stack (c :: c' :: cs)) with
    (rows <- tf_stack (c' :: cs);;
     if decide (length c = length rows) then Ok (zip_with cons c rows)
     else Raise InvalidArgumentError).
  by rewrite H.
Qed.

Lemma zip_with_cons_fmap {X A} (g : X -> list A) (l : list X) :
  forall c : list A,
  zip_with cons c (g <$> l) = (fun p => p.2 :: g p.1) <$> zip l c.
Proof.
  induction l as [|x l IH]; intros [|y c]; simpl; try done.
  by rewrite IH.
Qed.

Lemma zip_with_cons_last {X A} (f1 f2 : X -> A) (l : list X) :
  forall c : list A,
  zip_with cons (f1 <$> l) (zip_with cons (f2 <$> l) ((fun x => [x]) <$> c))
  = (fun p => [f1 p.1; f2 p.1; p.2]) <$> zip l c.
Proof.
  induction l as [|x l IH]; intros [|y c]; simpl; try done.
  by rewrite <- IH.
Qed.

Lemma tf_stack_blobs {X} (c : list R) (f1 f2 f3 : X -> R) (l : list X) :
  tf_stack [c; f1 <$> l; f2 <$> l; f3 <$> l]
  = if decide (length c = length l)
    then Ok ((fun p => [p.2; f1 p.1; f2 p.1; f3 p.1]) <$> zip l c)
    else Raise InvalidArgumentError.
Proof.
  assert (tf_stack [f1 <$> l; f2 <$> l; f3 <$> l]
          = Ok ((fun x => [f1 x; f2 x; f3 x]) <$> l)) as H3.
  { rewrite (tf_stack_cons_eq _ _ _ _ (tf_stack_pair f2 f3 l)).
    rewrite decide_True by (by rewrite !length_fmap). f_equal.
    by rewrite zip_with_fmap_l, zip_with_fmap_r, zip_with_diag. }
  rewrite (tf_stack_cons_eq _ _ _ _ H3), length_fmap.
  case_decide; [|done]. f_equal.
  apply (zip_with_cons_fmap (fun x => [f1 x; f2 x; f3 x])).
Qed.

Lemma tf_stack_indices {X} (c : list R) (f1 f2 : X -> R) (l : list X) :
  tf_stack [f1 <$> l; f2 <$> l; c]
  = if decide (length c = length l)
    then Ok ((fun p => [f1 p.1; f2 p.1; p.2]) <$> zip l c)
    else Raise InvalidArgumentError.
Proof.
  assert (tf_stack [c] = Ok ((fun x => [x]) <$> c)) as H1 by done.
  pose proof (tf_stack_cons_eq (f2 <$> l) _ _ _ H1) as H2.
  destruct (decide (length (f2 <$> l) = length ((fun x : R => [x]) <$> c)))
    as [Hc|Hc]; rewrite !length_fmap in Hc.
  - rewrite (tf_stack_cons_eq _ _ _ _ H2).
    rewrite decide_True
      by (rewrite length_zip_with, !length_fmap; lia).
    rewrite decide_True by done.
    f_equal. apply zip_with_cons_last.
  - rewrite decide_False by congruence.
    change (tf_stack [f1 <$> l; f2 <$> l; c]) with
      (rows <- tf_stack [f2 <$> l; c];;
       if decide (length (f1 <$> l) = length rows)
       then Ok (zip_with cons (f1 <$> l) rows)
       else Raise InvalidArgumentError).
    by rewrite H2.
Qed.

(** ** The builder, instance by instance *)

Lemma replicate_as_fmap {X A} (x : A) (l : list X) :
  replicate (length l) x = (fun _ => x) <$> l.
Proof. induction l as [|y l IH]; simpl; [done|]. by rewrite IH. Qed.

Lemma zip_fmap_snd {X A B} (f : A -> B) (l : list X) :
  forall k : list A, zip l (f <$> k) = (fun p => (p.1, f p.2)) <$> zip l k.
Proof.
  induction l as [|x l IH]; intros [|y k]; simpl; try done.
  by rewrite <- IH.
Qed.

Section BuilderFacts.
Variable gaussian_radius : list R -> R -> R.
Variable draw_gaussian : list Z -> list R -> DType -> tensor3 R.

Lemma radius_column hr wr (boxes : list box) n M rad iou :
  (0 <= n)%Z -> length boxes = Z.to_nat n -> Z.to_nat n <= Z.to_nat M ->
  radius gaussian_radius (size_row hr wr <$> boxes) n M rad iou
  = radius_of gaussian_radius hr wr rad iou <$> boxes.
Proof.
  intros Hn Hl HM. unfold radius, radius_of. case_decide.
  - by rewrite <- !list_fmap_compose.
  - rewrite slice_to_pos, take_replicate, Nat.min_l by lia.
    rewrite <- Hl. apply replicate_as_fmap.
Qed.

Lemma only_tf_splat_heatmap shape dt bhw n M rad iou cls fy fx :
  only_tf (splat_heatmap gaussian_radius draw_gaussian shape dt bhw n M
             rad iou cls fy fx).
Proof.
  unfold splat_heatmap. apply only_tf_bind; [apply only_tf_stack|].
  intros ?. apply only_tf_reduce_max.
Qed.

Lemma only_tf_scatter_heatmap z n cls fy fx :
  only_tf (scatter_heatmap z n cls fy fx).
Proof.
  unfold scatter_heatmap. apply only_tf_bind; [apply only_tf_stack|].
  intros ?. apply only_tf_scatter, @only_tf_write3.
Qed.

Lemma instances_length labels :
  Z.to_nat (num_detections labels) <= length (bbox labels) ->
  Z.to_nat (num_detections labels) <= length (classes labels) ->
  length (instances labels) = Z.to_nat (num_detections labels).
Proof.
  intros Hb Hc. unfold instances. rewrite length_zip, !length_take. lia.
Qed.

Lemma splat_heatmap_eq labels shape dt hr wr M rad iou off :
  let n := num_detections labels in
  let boxes := take (Z.to_nat n) (bbox labels) in
  (0 <= n)%Z -> Z.to_nat n <= length (bbox labels) ->
  Z.to_nat n <= Z.to_nat M ->
  splat_heatmap gaussian_radius draw_gaussian shape dt
    (size_row hr wr <$> boxes) n M rad iou
    (take (Z.to_nat n) ((fun c => IZR (c - off)) <$> classes labels))
    (tf_floor <$> (scale_yct_of hr <$> boxes))
    (tf_floor <$> (scale_xct_of wr <$> boxes))
  = if decide (Z.to_nat n <= length (classes labels)) then
      reduce_max
        ((fun p => draw_gaussian shape
                     (ct_blob gaussian_radius hr wr rad iou off p) dt)
           <$> instances labels)
    else Raise InvalidArgumentError.
Proof.
  intros n boxes Hn Hb HM. unfold splat_heatmap.
  assert (length boxes = Z.to_nat n) as Hl
    by (unfold boxes; rewrite length_take; lia).
  rewrite radius_column by done.
  rewrite <- !list_fmap_compose, tf_stack_blobs.
  rewrite length_take, length_fmap, Hl.
  destruct (decide (Z.to_nat n <= length (classes labels))) as [Hc|Hc].
  - rewrite decide_True by lia. cbn [bind]. f_equal.
    rewrite <- fmap_take, zip_fmap_snd, <- !list_fmap_compose.
    done.
  - by rewrite decide_False by lia.
Qed.

Lemma scatter_heatmap_eq labels (zeros : tensor3 R) hr wr off :
  let n := num_detections labels in
  let boxes := take (Z.to_nat n) (bbox labels) in
  (0 <= n)%Z -> Z.to_nat n <= length (bbox labels) ->
  scatter_heatmap zeros n
    (take (Z.to_nat n) ((fun c => IZR (c - off)) <$> classes labels))
    (tf_floor <$> (scale_yct_of hr <$> boxes))
    (tf_floor <$> (scale_xct_of wr <$> boxes))
  = if decide (Z.to_nat n <= length (classes labels)) then
      tensor_scatter_nd_update write3 zeros
        (ct_hm_index hr wr off <$> instances labels)
        (replicate (length (instances labels)) 1%R)
    else Raise InvalidArgumentError.
Proof.
  intros n boxes Hn Hb. unfold scatter_heatmap.
  assert (length boxes = Z.to_nat n) as Hl
    by (unfold boxes; rewrite length_take; lia).
  rewrite <- !list_fmap_compose, tf_stack_indices.
  rewrite length_take, length_fmap, Hl.
  destruct (decide (Z.to_nat n <= length (classes labels))) as [Hc|Hc].
  - rewrite decide_True by lia. cbn [bind].
    rewrite instances_length by done. f_equal.
    rewrite <- fmap_take, zip_fmap_snd, <- !list_fmap_compose.
    done.
  - by rewrite decide_False by lia.
Qed.
End BuilderFacts.

Lemma tf_stack_pair_compose {X A B} (g : A -> B) (f1 f2 : X -> A)
    (l : list X) :
  tf_stack [g <$> (f1 <$> l); g <$> (f2 <$> l)]
  = Ok ((fun x => [g (f1 x); g (f2 x)]) <$> l).
Proof. rewrite <- !list_fmap_compose. apply tf_stack_pair. Qed.

Section BuildEq.
Variable gaussian_radius : list R -> R -> R.
Variable draw_gaussian : list Z -> list R -> DType -> tensor3 R.

(** The vectorised builder and the pass over the instances agree on
    every input, errors included. *)
Theorem build_eq labels output_size input_size num_classes
    max_num_instances use_gaussian_bump gaussian_rad gaussian_iou
    class_offset dtype :
  build_heatmap_and_regressed_features gaussian_radius draw_gaussian
    labels output_size input_size num_classes max_num_instances
    use_gaussian_bump gaussian_rad gaussian_iou class_offset dtype
  = build_by_instance gaussian_radius draw_gaussian
      labels output_size input_size num_classes max_num_instances
      use_gaussian_bump gaussian_rad gaussian_iou class_offset dtype.
Proof.
  unfold build_heatmap_and_regressed_features, build_by_instance.
  destruct (parse_dtype dtype) as [dt|e]; [|done]. cbn [bind].
  rewrite scale_yct_column, scale_xct_column, !vsub_floor_column,
    !box_extent_column, !tf_stack_pair, tf_stack_pair_compose.
  cbn [bind].
  destruct (tf_zeros3 0%R output_size.1 output_size.2 num_classes)
    as [zeros|e] eqn:Hz; [|done]. cbn [bind].
  unfold tf_zeros2, tf_zeros1.
  destruct (dim max_num_instances) as [m|e] eqn:Hm; [|done]. cbn [bind].
  rewrite (dim_nonneg 2) by lia. cbn [bind].
  change (replicate (Z.to_nat 2) ?x) with [x; x].
  apply dim_inv in Hm as [HM ->].
  case_decide as Hn.
  - rewrite !slice_to_pos by lia.
    fold (height_ratio_of output_size input_size).
    fold (width_ratio_of output_size input_size).
    set (hr := height_ratio_of output_size input_size).
    set (wr := width_ratio_of output_size input_size).
    set (n := num_detections labels) in *.
    set (boxes := take (Z.to_nat n) (bbox labels)).
    assert (length boxes = Z.to_nat n `min` length (bbox labels)) as Hl
      by apply length_take.
    rewrite !scatter2_zeros_eq, scatter1_zeros_eq;
      try (rewrite ?Forall_fmap; by apply Forall_true).
    rewrite !length_fmap, length_replicate, Hl.
    match goal with
    | |- bind ?h _ = _ =>
        assert (Z.to_nat n <= length (bbox labels) ->
                Z.to_nat n <= Z.to_nat max_num_instances ->
                h = if decide (Z.to_nat n <= length (classes labels)) then
                      ct_heatmap_of gaussian_radius draw_gaussian
                        output_size num_classes use_gaussian_bump
                        gaussian_rad gaussian_iou class_offset hr wr dt
                        zeros (instances labels)
                    else Raise InvalidArgumentError) as Hheat
    end.
    { intros Hb Hm. unfold ct_heatmap_of. destruct use_gaussian_bump.
      - exact (splat_heatmap_eq gaussian_radius draw_gaussian labels _ dt
                 hr wr max_num_instances gaussian_rad gaussian_iou
                 class_offset ltac:(lia) Hb Hm).
      - exact (scatter_heatmap_eq labels zeros hr wr class_offset
                 ltac:(lia) Hb). }
    destruct (decide (Z.to_nat n <= length (bbox labels) /\
                      Z.to_nat n <= length (classes labels) /\
                      Z.to_nat n <= Z.to_nat max_num_instances))
      as [(Hb & Hc & Hm)|Hnc].
    + rewrite !decide_True by lia.
      rewrite Hheat, decide_True by done.
      destruct (ct_heatmap_of _ _ _ _ _ _ _ _ _ _ _ _ _) as [hm|e];
        [|done].
      cbn [bind]. unfold encode_targets. rewrite Hl, Nat.min_l by lia.
      by rewrite <- list_fmap_compose.
    + destruct (decide (Z.to_nat n <= length (bbox labels) /\
                        Z.to_nat n <= Z.to_nat max_num_instances))
        as [[Hb Hm]|Hbm].
      * rewrite Hheat, decide_False by (done || lia). done.
      * match goal with
        | |- bind ?h _ = _ => destruct h as [hm|e] eqn:Hh
        end; cbn [bind].
        -- by rewrite decide_False by lia.
        -- f_equal. destruct use_gaussian_bump.
           ++ by apply only_tf_splat_heatmap in Hh.
           ++ by apply only_tf_scatter_heatmap in Hh.
  - unfold zero_bundle. apply tf_zeros3_inv in Hz as (_ & _ & _ & ->).
    done.
Qed.
End BuildEq.

Section BuildFacts.
Variable gaussian_radius : list R -> R -> R.
Variable draw_gaussian : list Z -> list R -> DType -> tensor3 R.
Variables (labels : Labels) (output_size input_size : Z * Z).
Variables (num_classes max_num_instances : Z) (use_gaussian_bump : bool).
Variables (gaussian_rad : Z) (gaussian_iou : R) (class_offset : Z).
Variable dtype : string.

Let build := build_heatmap_and_regressed_features gaussian_radius
  draw_gaussian labels output_size input_size num_classes max_num_instances
  use_gaussian_bump gaussian_rad gaussian_iou class_offset dtype.
Let hr := height_ratio_of output_size input_size.
Let wr := width_ratio_of output_size input_size.
Let n := Z.to_nat (num_detections labels).
Let m := Z.to_nat max_num_instances.
Let zeros : tensor3 R :=
  replicate (Z.to_nat output_size.1)
    (replicate (Z.to_nat output_size.2)
       (replicate (Z.to_nat num_classes) 0%R)).

(** What a successful call has checked and built. *)
Lemma build_inv b :
  build = Ok b ->
  exists dt, parse_dtype dtype = Ok dt /\
    (0 <= output_size.1)%Z /\ (0 <= output_size.2)%Z /\
    (0 <= num_classes)%Z /\ (0 <= max_num_instances)%Z /\
    if decide (0 < num_detections labels)%Z then
      n <= length (bbox labels) /\ n <= length (classes labels) /\ n <= m /\
      exists hm,
        ct_heatmap_of gaussian_radius draw_gaussian output_size num_classes
          use_gaussian_bump gaussian_rad gaussian_iou class_offset hr wr
          dt zeros (instances labels) = Ok hm /\
        b = encode_targets hm hr wr (take n (bbox labels)) m
    else b = zero_bundle output_size num_classes max_num_instances.
Proof.
  unfold build. rewrite build_eq. unfold build_by_instance. intros H.
  do 3 inv_bind H. exists a. split; [done|].
  apply tf_zeros3_inv in Ha0 as (? & ? & ? & ->).
  apply dim_inv in Ha1 as [? ->].
  do 4 (split; [done|]).
  case_decide; [|by injection H as <-].
  case_decide as Hc; [|discriminate]. destruct Hc as (? & ? & ?).
  do 3 (split; [done|]). inv_bind H. injection H as <-. by exists a0.
Qed.

(** A call on a well-formed record succeeds as soon as its heatmap can
    be drawn. *)
Lemma build_ok dt hm :
  parse_dtype dtype = Ok dt ->
  (0 <= output_size.1)%Z -> (0 <= output_size.2)%Z ->
  (0 <= num_classes)%Z -> (0 <= max_num_instances)%Z ->
  (0 < num_detections labels)%Z ->
  n <= length (bbox labels) -> n <= length (classes labels) -> n <= m ->
  ct_heatmap_of gaussian_radius draw_gaussian output_size num_classes
    use_gaussian_bump gaussian_rad gaussian_iou class_offset hr wr
    dt zeros (instances labels) = Ok hm ->
  build = Ok (encode_targets hm hr wr (take n (bbox labels)) m).
Proof.
  intros Hdt H1 H2 H3 H4 Hn Hb Hc Hm Hhm.
  unfold build. rewrite build_eq. unfold build_by_instance.
  rewrite Hdt. cbn [bind]. unfold tf_zeros3.
  rewrite !dim_nonneg by done. cbn [bind].
  rewrite decide_True by done. rewrite decide_True by done.
  fold zeros hr wr. rewrite Hhm. done.
Qed.

Lemma build_zero dt :
  parse_dtype dtype = Ok dt ->
  (0 <= output_size.1)%Z -> (0 <= output_size.2)%Z ->
  (0 <= num_classes)%Z -> (0 <= max_num_instances)%Z ->
  (num_detections labels <= 0)%Z ->
  build = Ok (zero_bundle output_size num_classes max_num_instances).
Proof.
  intros Hdt H1 H2 H3 H4 Hn.
  unfold build. rewrite build_eq. unfold build_by_instance.
  rewrite Hdt. cbn [bind]. unfold tf_zeros3.
  rewrite !dim_nonneg by done. cbn [bind].
  by rewrite decide_False by lia.
Qed.

(** With Gaussians the heatmap of a non-empty record can always be
    drawn. *)
Lemma ct_heatmap_of_gaussian dt z insts :
  insts <> [] ->
  is_Ok (ct_heatmap_of gaussian_radius draw_gaussian output_size
           num_classes true gaussian_rad gaussian_iou class_offset hr wr
           dt z insts).
Proof. destruct insts; [done|]. intros _. simpl. eauto. Qed.
End BuildFacts.

(** ** The rows of the encoded targets *)

Lemma encode_targets_row hm hr wr (boxes : list box) (m i : nat) (bx : box) :
  boxes !! i = Some bx ->
  let b := encode_targets hm hr wr boxes m in
  ct_offset b !! i = Some (ct_offset_row hr wr bx) /\
  size b !! i = Some (size_row hr wr bx) /\
  box_mask b !! i = Some 1%Z /\
  box_indices b !! i = Some (box_index_row hr wr bx).
Proof.
  intros Hi. pose proof (lookup_lt_Some _ _ _ Hi) as Hlt. simpl.
  rewrite !lookup_app_l by (by rewrite ?length_fmap, ?length_replicate).
  rewrite !list_lookup_fmap, Hi. simpl.
  by rewrite lookup_replicate_2.
Qed.

Lemma encode_targets_pad hm hr wr (boxes : list box) (m i : nat) :
  length boxes <= i < m ->
  let b := encode_targets hm hr wr boxes m in
  ct_offset b !! i = Some [0; 0]%R /\
  size b !! i = Some [0; 0]%R /\
  box_mask b !! i = Some 0%Z /\
  box_indices b !! i = Some [0; 0]%Z.
Proof.
  intros Hi. simpl.
  rewrite !lookup_app_r by (rewrite ?length_fmap, ?length_replicate; lia).
  rewrite !length_fmap, length_replicate.
  by rewrite !lookup_replicate_2 by lia.
Qed.

Lemma zero_bundle_row output_size num_classes max_num_instances (i : nat) :
  i < Z.to_nat max_num_instances ->
  let b := zero_bundle output_size num_classes max_num_instances in
  ct_offset b !! i = Some [0; 0]%R /\
  size b !! i = Some [0; 0]%R /\
  box_mask b !! i = Some 0%Z /\
  box_indices b !! i = Some [0; 0]%Z.
Proof. intros Hi. simpl. by rewrite !lookup_replicate_2 by lia. Qed.

Lemma parse_dtype_accepted (dtype : string) :
  dtype = "float16" \/ dtype = "bfloat16" \/ dtype = "float32" ->
  exists dt, parse_dtype dtype = Ok dt.
Proof. intros [-> | [-> | ->]]; by eexists. Qed.

Lemma parse_dtype_rejected (dtype : string) :
  ~ (dtype = "float16" \/ dtype = "bfloat16" \/ dtype = "float32") ->
  parse_dtype dtype = Raise (Exception unsupported_datatype).
Proof.
  intros H. unfold parse_dtype. repeat case_decide; try done; tauto.
Qed.

(** * The claims *)

Section Claims.
Variable gaussian_radius : list R -> R -> R.
Variable draw_gaussian : list Z -> list R -> DType -> tensor3 R.
Variables (labels : Labels) (output_size input_size : Z * Z).
Variables (num_classes max_num_instances : Z) (use_gaussian_bump : bool).
Variables (gaussian_rad : Z) (gaussian_iou : R) (class_offset : Z).
Variable dtype : string.

Let build := build_heatmap_and_regressed_features gaussian_radius
  draw_gaussian labels output_size input_size num_classes max_num_instances
  use_gaussian_bump gaussian_rad gaussian_iou class_offset dtype.

(** C1.  In every bundle the builder returns, row [i] of the mask is 1
    exactly when [i < num_detections] (and 0 otherwise), and every row
    [i >= num_detections] of the offsets, the sizes and the indices is
    its zero default [(0, 0)]: the encoder writes rows
    [0 .. num_detections - 1] only. *)
Theorem mask_marks_the_first_count_rows (b : Bundle) (i : nat) :
  build = Ok b ->
  i < Z.to_nat max_num_instances ->
  (exists v, box_mask b !! i = Some v /\ (v = 0%Z \/ v = 1%Z) /\
     (v = 1%Z <-> (Z.of_nat i < num_detections labels)%Z)) /\
  ((num_detections labels <= Z.of_nat i)%Z ->
     ct_offset b !! i = Some [0; 0]%R /\
     size b !! i = Some [0; 0]%R /\
     box_indices b !! i = Some [0; 0]%Z).
Proof.
  intros H Hi.
  apply build_inv in H as (dt & _ & _ & _ & _ & _ & H).
  case_decide as Hn.
  - destruct H as (Hb & _ & Hm & hm & _ & ->).
    set (n := Z.to_nat (num_detections labels)) in *.
    assert (length (take n (bbox labels)) = n) as Hl
      by (rewrite length_take; lia).
    destruct (decide (i < n)) as [Hlt|Hge].
    + destruct (lookup_lt_is_Some_2 (take n (bbox labels)) i) as [bx Hbx];
        [lia|].
      destruct (encode_targets_row hm
                  (height_ratio_of output_size input_size)
                  (width_ratio_of output_size input_size) _
                  (Z.to_nat max_num_instances) _ _ Hbx)
        as (_ & _ & Hmask & _).
      split; [|lia]. exists 1%Z. split; [done|]. split; [by right|].
      split; [lia|done].
    + destruct (encode_targets_pad hm (height_ratio_of output_size input_size)
                  (width_ratio_of output_size input_size)
                  (take n (bbox labels)) (Z.to_nat max_num_instances) i)
        as (Ho & Hs & Hmask & Hx); [lia|].
      split; [|done]. exists 0%Z. split; [done|]. split; [by left|].
      split; [done|lia].
  - subst b.
    destruct (zero_bundle_row output_size num_classes max_num_instances i Hi)
      as (Ho & Hs & Hmask & Hx).
    split; [|done]. exists 0%Z. split; [done|]. split; [by left|].
    split; [done|lia].
Qed.

Lemma only_tf_build dt : parse_dtype dtype = Ok dt -> only_tf build.
Proof.
  intros Hdt. unfold build. rewrite build_eq. unfold build_by_instance.
  rewrite Hdt. cbn [bind].
  apply only_tf_bind; [apply only_tf_zeros3|]. intros zeros.
  apply only_tf_bind; [apply only_tf_dim|]. intros m.
  repeat case_decide; try apply only_tf_Ok; try apply only_tf_Raise.
  apply only_tf_bind; [|intros; apply only_tf_Ok].
  unfold ct_heatmap_of. destruct use_gaussian_bump.
  - apply only_tf_reduce_max.
  - apply only_tf_scatter, @only_tf_write3.
Qed.


End Claims.


(** ** The run of [__main__] *)

Lemma main_scaled_center :
  scale_xct_of (width_ratio_of (128, 128)%Z (512, 512)%Z)
    (Box 10 300 15 370) = 83.75%R /\
  scale_yct_of (height_ratio_of (128, 128)%Z (512, 512)%Z)
    (Box 10 300 15 370) = 3.125%R.
Proof.
  unfold scale_xct_of, scale_yct_of, width_ratio_of, height_ratio_of.
  simpl. split; lra.
Qed.

Lemma main_first_rows :
  let hr := height_ratio_of (128, 128)%Z (512, 512)%Z in
  let wr := width_ratio_of (128, 128)%Z (512, 512)%Z in
  box_index_row hr wr (Box 10 300 15 370) = [3; 83]%Z /\
  ct_offset_row hr wr (Box 10 300 15 370) = [0.125; 0.75]%R /\
  size_row hr wr (Box 10 300 15 370) = [1.25; 17.5]%R.
Proof.
  intros hr wr. destruct main_scaled_center as [Hx Hy].
  fold hr in Hy. fold wr in Hx.
  unfold box_index_row, ct_offset_row, size_row.
  rewrite !cast_int32_floor. unfold tf_floor. rewrite Hx, Hy.
  rewrite (Zfloor_eq 3 3.125) by lra.
  rewrite (Zfloor_eq 83 83.75) by lra.
  split; [done|]. unfold hr, wr, height_ratio_of, width_ratio_of. simpl.
  split; repeat f_equal; lra.
Qed.

Lemma main_call_inv gaussian_radius draw_gaussian (b : Bundle) :
  main_call gaussian_radius draw_gaussian = Ok b ->
  exists hm,
    b = encode_targets hm (height_ratio_of (128, 128)%Z (512, 512)%Z)
          (width_ratio_of (128, 128)%Z (512, 512)%Z)
          [Box 10 300 15 370; Box 100 300 150 370; Box 15 100 200 170] 128.
Proof.
  intros H. apply build_inv in H as (dt & _ & _ & _ & _ & _ & H).
  rewrite decide_True in H by done.
  destruct H as (_ & _ & _ & hm & _ & ->). by exists hm.
Qed.

Lemma main_call_ok gaussian_radius draw_gaussian :
  exists b, main_call gaussian_radius draw_gaussian = Ok b.
Proof.
  destruct (ct_heatmap_of_gaussian gaussian_radius draw_gaussian
              (128, 128)%Z (512, 512)%Z 90 (-1) 0.7 0 float32
              (replicate (Z.to_nat 128)
                 (replicate (Z.to_nat 128) (replicate (Z.to_nat 90) 0%R)))
              (instances main_labels)) as [hm Hhm]; [done|].
  eexists. unfold main_call.
  apply (build_ok _ _ _ _ _ _ _ _ _ _ _ _ float32 hm);
    try done; simpl; lia.
Qed.

Lemma main_call_row0 gaussian_radius draw_gaussian (b : Bundle) :
  main_call gaussian_radius draw_gaussian = Ok b ->
  box_indices b !! 0 = Some [3; 83]%Z /\
  ct_offset b !! 0 = Some [0.125; 0.75]%R /\
  size b !! 0 = Some [1.25; 17.5]%R /\
  box_mask b !! 0 = Some 1%Z.
Proof.
  intros H. apply main_call_inv in H as [hm ->].
  destruct main_first_rows as (Hx & Ho & Hs). simpl.
  by rewrite Hx, Ho, Hs.
Qed.

(** C2, as the code has it.  In the run of [__main__] the box
    [(10, 300, 15, 370)], scaled from a 512 x 512 input to a 128 x 128
    output, has the scaled centre [(xct, yct) = (83.75, 3.125)], the index
    row [(fy, fx) = (3, 83)], the offset row [(0.125, 0.75)], the size row
    [(1.25, 17.5)] and the mask entry 1. *)
Theorem main_fixture_first_box gaussian_radius draw_gaussian :
  scale_xct_of (width_ratio_of (128, 128)%Z (512, 512)%Z)
    (Box 10 300 15 370) = 83.75%R /\
  scale_yct_of (height_ratio_of (128, 128)%Z (512, 512)%Z)
    (Box 10 300 15 370) = 3.125%R /\
  exists b, main_call gaussian_radius draw_gaussian = Ok b /\
    box_indices b !! 0 = Some [3; 83]%Z /\
    ct_offset b !! 0 = Some [0.125; 0.75]%R /\
    size b !! 0 = Some [1.25; 17.5]%R /\
    box_mask b !! 0 = Some 1%Z.
Proof.
  destruct main_scaled_center as [Hx Hy]. do 2 (split; [done|]).
  destruct (main_call_ok gaussian_radius draw_gaussian) as [b Hb].
  exists b. split; [done|]. by apply (main_call_row0 _ _ _ Hb).
Qed.

(** C2, as the specification words it, fails: the scaled centre is not
    [(16.75, 3.125)] and the index row is not [(3, 16)]. *)
Lemma main_fixture_first_box_not_as_specified :
  ~ (scale_xct_of (width_ratio_of (128, 128)%Z (512, 512)%Z)
       (Box 10 300 15 370) = 16.75%R /\
     scale_yct_of (height_ratio_of (128, 128)%Z (512, 512)%Z)
       (Box 10 300 15 370) = 3.125%R /\
     forall b, main_call unit_radius draw_gaussian = Ok b ->
       box_indices b !! 0 = Some [3; 16]%Z /\
       ct_offset b !! 0 = Some [0.125; 0.75]%R /\
       size b !! 0 = Some [1.25; 17.5]%R /\
       box_mask b !! 0 = Some 1%Z).
Proof.
  intros (_ & _ & H).
  destruct (main_call_ok unit_radius draw_gaussian) as [b Hb].
  destruct (H b Hb) as (Hx & _).
  destruct (main_call_row0 _ _ _ Hb) as (Hx' & _).
  rewrite Hx' in Hx. discriminate.
Qed.

(** ** Scattering one value *)

Lemma zip_exact_replicate {X Y} (xs : list X) (y : Y) :
  zip_exact xs (replicate (length xs) y) = Ok ((fun x => (x, y)) <$> xs).
Proof.
  induction xs as [|x xs IH]; simpl; [done|]. by rewrite IH.
Qed.

Lemma last_update_const {A} (ix : list Z) (idx : list (list Z)) (v : A) :
  last_update ix ((fun x => (x, v)) <$> idx)
  = if decide (ix ∈ idx) then Some v else None.
Proof.
  induction idx as [|jx idx IH].
  - by rewrite decide_False by (by intros ?%elem_of_nil).
  - change (last_update ix ((fun x => (x, v)) <$> jx :: idx)) with
      (match last_update ix ((fun x => (x, v)) <$> idx) with
       | Some v' => Some v'
       | None => if decide (jx = ix) then Some v else None
       end).
    rewrite IH. destruct (decide (ix ∈ idx)) as [Hin|Hnin].
    + rewrite decide_True; [done|]. by right.
    + destruct (decide (jx = ix)) as [->|Hne].
      * rewrite decide_True; [done|]. by left.
      * rewrite decide_False; [done|].
        intros [->|?]%elem_of_cons; done.
Qed.

Section ScatterConst.
Context {T A : Type}.
Variable rd : T -> list Z -> option A.
Variable w : T -> list Z -> A -> result T.
Variable sh : relation T.
Hypothesis laws : tensor_laws rd w sh.
Hypothesis w_only_tf : forall s ix v, only_tf (w s ix v).

(** A scatter of the value [v] succeeds exactly when every index is in
    range, and then leaves [v] in the cells listed and the old value in
    the others. *)
Lemma scatter_const_inv t idx v t' :
  tensor_scatter_nd_update w t idx (replicate (length idx) v) = Ok t' ->
  sh t t' /\ Forall (fun ix => is_Some (rd t ix)) idx /\
  forall ix, rd t' ix = if decide (ix ∈ idx) then Some v else rd t ix.
Proof.
  unfold tensor_scatter_nd_update. rewrite zip_exact_replicate.
  cbn [bind]. intros H.
  destruct (apply_updates_inv rd w sh laws _ _ _ H) as (Hsh & Hval & Hrd).
  split; [done|]. split.
  - rewrite Forall_fmap in Hval. done.
  - intros ix. rewrite Hrd, last_update_const. by case_decide.
Qed.

Lemma scatter_const_ok t idx v :
  Forall (fun ix => is_Some (rd t ix)) idx ->
  is_Ok (tensor_scatter_nd_update w t idx (replicate (length idx) v)).
Proof.
  intros H. unfold tensor_scatter_nd_update. rewrite zip_exact_replicate.
  cbn [bind]. apply (apply_updates_ok rd w sh laws).
  by rewrite Forall_fmap.
Qed.

(** The order of the indices does not matter. *)
Lemma scatter_const_perm t idx idx' v :
  idx ≡ₚ idx' ->
  tensor_scatter_nd_update w t idx (replicate (length idx) v)
  = tensor_scatter_nd_update w t idx' (replicate (length idx') v).
Proof.
  intros Hp. pose proof (tl_equiv _ _ _ laws) as Heq.
  destruct (tensor_scatter_nd_update w t idx (replicate (length idx) v))
    as [t1|e1] eqn:H1.
  - destruct (scatter_const_inv _ _ _ _ H1) as (Hsh1 & Hval1 & Hrd1).
    destruct (scatter_const_ok t idx' v) as [t2 H2].
    { by rewrite <- Hp. }
    rewrite H2. f_equal.
    destruct (scatter_const_inv _ _ _ _ H2) as (Hsh2 & Hval2 & Hrd2).
    apply (tl_ext _ _ _ laws).
    + etrans; [symmetry; exact Hsh1 | exact Hsh2].
    + intros ix. rewrite Hrd1, Hrd2.
      destruct (decide (ix ∈ idx)) as [Hin|Hnin].
      * rewrite decide_True; [done|]. by rewrite <- Hp.
      * rewrite decide_False; [done|]. by rewrite <- Hp.
  - destruct (tensor_scatter_nd_update w t idx' (replicate (length idx') v))
      as [t2|e2] eqn:H2.
    + destruct (scatter_const_inv _ _ _ _ H2) as (_ & Hval2 & _).
      destruct (scatter_const_ok t idx v) as [t1 H1'].
      { by rewrite Hp. }
      congruence.
    + f_equal. apply only_tf_scatter in H1; [|done].
      apply only_tf_scatter in H2; [|done]. congruence.
Qed.
End ScatterConst.

Lemma read_at_replicate {T A} (rd : T -> list Z -> option A) (s : T) (z : A)
    (k : nat) (ix : list Z) (v : A) :
  (forall ix' v', rd s ix' = Some v' -> v' = z) ->
  read_at rd (replicate k s) ix = Some v -> v = z.
Proof.
  intros Hs. destruct ix as [|i ix]; [done|]. rewrite read_at_cons.
  case_decide; [|done].
  destruct (replicate k s !! Z.to_nat i) as [s'|] eqn:Hl; [|done].
  apply lookup_replicate in Hl as [-> _]. simpl. apply Hs.
Qed.

Lemma read3_zeros {A} (z : A) (a b c : nat) (ix : list Z) (v : A) :
  read3 (replicate a (replicate b (replicate c z))) ix = Some v -> v = z.
Proof.
  apply read_at_replicate. intros ix1 v1. apply read_at_replicate.
  intros ix2 v2. apply read_at_replicate. intros [|? ?] v3; [|done].
  by intros [= <-].
Qed.

Lemma ct_hm_index_eq hr wr off (p : box * Z) :
  ct_hm_index hr wr off p
  = [Zfloor (scale_yct_of hr p.1); Zfloor (scale_xct_of wr p.1);
     (p.2 - off)%Z].
Proof.
  unfold ct_hm_index. by rewrite !cast_int32_floor, cast_int32_IZR.
Qed.

Section ClaimsScatter.
Variable gaussian_radius : list R -> R -> R.
Variable draw_gaussian : list Z -> list R -> DType -> tensor3 R.
Variables (labels : Labels) (output_size input_size : Z * Z).
Variables (num_classes max_num_instances : Z).
Variables (gaussian_rad : Z) (gaussian_iou : R) (class_offset : Z).
Variable dtype : string.

Let hr := height_ratio_of output_size input_size.
Let wr := width_ratio_of output_size input_size.
Let cell (p : box * Z) : list Z :=
  [Zfloor (scale_yct_of hr p.1); Zfloor (scale_xct_of wr p.1);
   (p.2 - class_offset)%Z].

End ClaimsScatter.

(** ** The elementwise maximum *)

Lemma zip_with_commutes {A} (f : A -> A -> A) :
  (forall x y, f x y = f y x) ->
  forall a b, zip_with f a b = zip_with f b a.
Proof.
  intros Hf a. induction a as [|x a IH]; intros [|y b]; simpl; try done.
  by rewrite Hf, IH.
Qed.

Lemma zip_with_associates {A} (f : A -> A -> A) :
  (forall x y z, f x (f y z) = f (f x y) z) ->
  forall a b c, zip_with f a (zip_with f b c) = zip_with f (zip_with f a b) c.
Proof.
  intros Hf a. induction a as [|x a IH]; intros [|y b] [|z c]; simpl;
    try done.
  by rewrite Hf, IH.
Qed.

Lemma maximum3_comm (a b : tensor3 R) : maximum3 a b = maximum3 b a.
Proof.
  unfold maximum3. do 2 (apply zip_with_commutes; intros).
  apply zip_with_commutes, Rmax_comm.
Qed.

Lemma maximum3_assoc (a b c : tensor3 R) :
  maximum3 a (maximum3 b c) = maximum3 (maximum3 a b) c.
Proof.
  unfold maximum3. do 2 (apply zip_with_associates; intros).
  apply zip_with_associates, Rmax_assoc.
Qed.

Lemma foldl_permutation {A B} (f : B -> A -> B) :
  (forall b x y, f (f b x) y = f (f b y) x) ->
  forall l l', l ≡ₚ l' -> forall b, foldl f b l = foldl f b l'.
Proof.
  intros Hf l l' Hp. induction Hp as [|x l l' _ IH|x y l|l l' l'' _ IH1 _ IH2];
    intros b; simpl.
  - done.
  - apply IH.
  - by rewrite Hf.
  - by rewrite IH1.
Qed.

Lemma reduce_max_fold (ts : list (tensor3 R)) :
  reduce_max ts
  = match foldl max_into None ts with
    | Some t => Ok t
    | None => Raise InvalidArgumentError
    end.
Proof.
  destruct ts as [|t ts]; [done|]. simpl.
  generalize t. induction ts as [|t' ts IH]; intros t0; simpl; [done|].
  apply IH.
Qed.

(** The maximum over the instances does not depend on their order. *)
Lemma reduce_max_permutation (ts ts' : list (tensor3 R)) :
  ts ≡ₚ ts' -> reduce_max ts = reduce_max ts'.
Proof.
  intros Hp. rewrite !reduce_max_fold.
  rewrite (foldl_permutation max_into) with (l' := ts'); [done| |done].
  intros [b|] x y; unfold max_into; f_equal.
  - by rewrite <- !maximum3_assoc, (maximum3_comm x y).
  - apply maximum3_comm.
Qed.

Lemma instances_padded insts pad_boxes pad_classes :
  instances (padded_record insts pad_boxes pad_classes) = insts.
Proof.
  unfold instances, padded_record. simpl. rewrite Nat2Z.id.
  rewrite !take_app_length' by (by rewrite length_fmap).
  apply zip_fst_snd.
Qed.

Section ClaimsPermutation.
Variable gaussian_radius : list R -> R -> R.
Variable draw_gaussian : list Z -> list R -> DType -> tensor3 R.
Variables (output_size input_size : Z * Z).
Variables (num_classes max_num_instances : Z) (use_gaussian_bump : bool).
Variables (gaussian_rad : Z) (gaussian_iou : R) (class_offset : Z).
Variable dtype : string.
Variables (pad_boxes : list box) (pad_classes : list Z).

Let build (insts : list (box * Z)) :=
  build_heatmap_and_regressed_features gaussian_radius draw_gaussian
    (padded_record insts pad_boxes pad_classes) output_size input_size
    num_classes max_num_instances use_gaussian_bump gaussian_rad
    gaussian_iou class_offset dtype.
Let hr := height_ratio_of output_size input_size.
Let wr := width_ratio_of output_size input_size.

Lemma ct_heatmap_of_permutation dt zeros (insts insts' : list (box * Z)) :
  insts ≡ₚ insts' ->
  ct_heatmap_of gaussian_radius draw_gaussian output_size num_classes
    use_gaussian_bump gaussian_rad gaussian_iou class_offset hr wr dt
    zeros insts
  = ct_heatmap_of gaussian_radius draw_gaussian output_size num_classes
      use_gaussian_bump gaussian_rad gaussian_iou class_offset hr wr dt
      zeros insts'.
Proof.
  intros Hp. unfold ct_heatmap_of. destruct use_gaussian_bump.
  - apply reduce_max_permutation. by apply fmap_Permutation.
  - rewrite <- !(length_fmap (ct_hm_index hr wr class_offset)).
    apply (scatter_const_perm read3 write3 _ laws3);
      [apply @only_tf_write3|].
    by apply fmap_Permutation.
Qed.

(** C6.  Permuting the first [num_detections] instances of a record,
    boxes and classes together, leaves the returned heatmap (or the
    error) as it was; the per-instance arrays hold the rows of the
    instances in the order given, so only the row an instance occupies
    changes. *)
Theorem heatmap_ignores_the_order_of_instances
    (insts insts' : list (box * Z)) :
  insts ≡ₚ insts' ->
  ct_heatmaps <$> build insts = ct_heatmaps <$> build insts' /\
  forall b b', build insts = Ok b -> build insts' = Ok b' ->
    ct_heatmaps b = ct_heatmaps b' /\
    b = encode_targets (ct_heatmaps b) hr wr insts.*1
          (Z.to_nat max_num_instances) /\
    b' = encode_targets (ct_heatmaps b') hr wr insts'.*1
           (Z.to_nat max_num_instances).
Proof.
  intros Hp.
  assert (length insts = length insts') as Hlen by (by rewrite Hp).
  assert (ct_heatmaps <$> build insts = ct_heatmaps <$> build insts')
    as Heq.
  { unfold build. rewrite !build_eq. unfold build_by_instance.
    destruct (parse_dtype dtype) as [dt|e]; [|done]. cbn [bind].
    destruct (tf_zeros3 _ _ _ _) as [zeros|e]; [|done]. cbn [bind].
    destruct (dim max_num_instances) as [m|e]; [|done]. cbn [bind].
    rewrite !instances_padded. simpl. rewrite !length_app, !length_fmap.
    rewrite <- Hlen. case_decide; [|done]. case_decide; [|done].
    fold hr wr. rewrite (ct_heatmap_of_permutation dt zeros _ _ Hp).
    by destruct (ct_heatmap_of _ _ _ _ _ _ _ _ _ _ _ _ _). }
  split; [exact Heq|]. intros b b' Hb Hb'.
  rewrite Hb, Hb' in Heq. injection Heq as Heq. split; [done|].
  apply build_inv in Hb as (dt & _ & _ & _ & _ & _ & Hb).
  apply build_inv in Hb' as (dt' & _ & _ & _ & _ & _ & Hb').
  simpl in Hb, Hb'. rewrite Nat2Z.id in Hb, Hb'.
  rewrite take_app_length' in Hb, Hb' by (by rewrite length_fmap).
  destruct (decide (0 < Z.of_nat (length insts))%Z) as [Hn|Hn].
  - rewrite decide_True in Hb' by lia.
    destruct Hb as (_ & _ & _ & hm & _ & ->).
    destruct Hb' as (_ & _ & _ & hm' & _ & ->). done.
  - rewrite decide_False in Hb' by lia. subst b b'.
    assert (insts = []) as -> by (destruct insts; [done|simpl in Hn; lia]).
    assert (insts' = []) as -> by (by destruct insts').
    unfold zero_bundle, encode_targets. simpl.
    by rewrite Nat.sub_0_r.
Qed.
End ClaimsPermutation.

(** ** Reading a maximum of splats *)

Lemma read_at_zip_with {T} (rd : T -> list Z -> option R) (f : T -> T -> T) :
  (forall s s' ix, rd (f s s') ix = opt_max (rd s ix) (rd s' ix)) ->
  forall a b ix,
  read_at rd (zip_with f a b) ix = opt_max (read_at rd a ix) (read_at rd b ix).
Proof.
  intros Hf a b [|i ix]; [done|]. rewrite !read_at_cons.
  case_decide; [|done]. rewrite lookup_zip_with.
  destruct (a !! Z.to_nat i) as [s|]; simpl; [|done].
  destruct (b !! Z.to_nat i) as [s'|]; simpl.
  - apply Hf.
  - by destruct (rd s ix).
Qed.

Lemma read3_maximum3 (a b : tensor3 R) ix :
  read3 (maximum3 a b) ix = opt_max (read3 a ix) (read3 b ix).
Proof.
  unfold read3, maximum3. apply read_at_zip_with. intros s s' ix1.
  apply read_at_zip_with. intros r r' ix2.
  apply read_at_zip_with. intros x y [|? ?]; done.
Qed.

Lemma opt_max_Some x y v :
  opt_max x y = Some v ->
  exists a b, x = Some a /\ y = Some b /\ v = Rmax a b.
Proof.
  destruct x as [a|], y as [b|]; simpl; try done. intros [= <-]. eauto.
Qed.

(** A cell of the maximum is an upper bound of the same cell of every
    tensor, and one of them attains it. *)
Lemma read3_foldl_maximum3 (ts : list (tensor3 R)) : forall t ix v,
  read3 (foldl maximum3 t ts) ix = Some v ->
  (forall u, u ∈ t :: ts -> exists w, read3 u ix = Some w /\ (w <= v)%R) /\
  (exists u, u ∈ t :: ts /\ read3 u ix = Some v).
Proof.
  induction ts as [|t' ts IH]; intros t ix v H; simpl in H.
  - split.
    + intros u ->%list_elem_of_singleton. exists v. split; [done|lra].
    + exists t. split; [by left|done].
  - destruct (IH _ _ _ H) as (Hub & u & Hu & Hatt).
    destruct (Hub (maximum3 t t')) as (w & Hw & Hwv); [by left|].
    rewrite read3_maximum3 in Hw.
    apply opt_max_Some in Hw as (a & b & Ha & Hb & ->).
    split.
    + intros u' Hin. apply elem_of_cons in Hin as [-> | Hin];
        [|apply elem_of_cons in Hin as [-> | Hin]].
      * exists a. split; [done|]. pose proof (Rmax_l a b). lra.
      * exists b. split; [done|]. pose proof (Rmax_r a b). lra.
      * apply Hub. by right.
    + apply elem_of_cons in Hu as [->|Hu].
      * rewrite read3_maximum3, Ha, Hb in Hatt. simpl in Hatt.
        injection Hatt as <-.
        destruct (Rmax_case a b (fun r => r = a \/ r = b)) as [Hc|Hc];
          [by left | by right | |]; rewrite Hc.
        -- exists t. split; [by left|done].
        -- exists t'. split; [by right; left|done].
      * exists u. split; [by do 2 right|done].
Qed.

Lemma read3_foldl_maximum3_Some (ts : list (tensor3 R)) : forall t ix,
  (forall u, u ∈ t :: ts -> is_Some (read3 u ix)) ->
  is_Some (read3 (foldl maximum3 t ts) ix).
Proof.
  induction ts as [|t' ts IH]; intros t ix H; simpl.
  - apply H. by left.
  - apply IH. intros u [->|Hu]%elem_of_cons.
    + rewrite read3_maximum3.
      destruct (H t) as [a ->]; [by left|].
      destruct (H t') as [b ->]; [by right; left|]. by eexists.
    + apply H. by do 2 right.
Qed.

(** ** The modelled splat *)

Lemma gaussian_value_range row col r i j :
  (0 < gaussian_value row col r i j <= 1)%R.
Proof.
  unfold gaussian_value. split; [apply exp_pos|].
  set (d := ((i - row) ^ 2 + (j - col) ^ 2)%Z).
  set (s := (IZR r / 3)%R).
  assert (0 <= IZR d)%R as Hd by (apply IZR_le; unfold d; nia).
  assert (0 <= / (2 * (s * s)))%R as Hi.
  { destruct (Req_dec (2 * (s * s)) 0) as [->|Hne].
    - rewrite Rinv_0. lra.
    - left. apply Rinv_0_lt_compat. nra. }
  assert (- IZR d / (2 * (s * s)) <= 0)%R as [Hlt | ->].
  { unfold Rdiv. nra. }
  - pose proof (exp_increasing _ _ Hlt) as He. rewrite exp_0 in He. lra.
  - rewrite exp_0. lra.
Qed.

Lemma splat_value_range class_id row col r i j c :
  (0 <= splat_value class_id row col r i j c <= 1)%R.
Proof.
  unfold splat_value. case_decide; [|lra].
  pose proof (gaussian_value_range row col r i j). lra.
Qed.

Lemma read3_draw_gaussian h w c cls row col rad dt (i j k : Z) :
  read3 (draw_gaussian [h; w; c] [cls; row; col; rad] dt) [i; j; k]
  = if decide ((0 <= i < h)%Z /\ (0 <= j < w)%Z /\ (0 <= k < c)%Z)
    then Some (splat_value (cast_int32 cls) (cast_int32 row) (cast_int32 col)
                 (cast_int32 rad) i j k)
    else None.
Proof.
  unfold draw_gaussian, read3, read2, read1. rewrite read_at_cons.
  destruct (decide (0 <= i)%Z) as [Hi|Hi];
    [|by rewrite decide_False by lia].
  rewrite list_lookup_fmap.
  destruct (decide (i < h)%Z) as [Hih|Hih].
  2:{ rewrite lookup_seqZ_ge by lia. by rewrite decide_False by lia. }
  rewrite lookup_seqZ_lt by lia. cbn [fmap option_fmap option_map mbind option_bind].
  rewrite read_at_cons.
  destruct (decide (0 <= j)%Z) as [Hj|Hj];
    [|by rewrite decide_False by lia].
  rewrite list_lookup_fmap.
  destruct (decide (j < w)%Z) as [Hjw|Hjw].
  2:{ rewrite lookup_seqZ_ge by lia. by rewrite decide_False by lia. }
  rewrite lookup_seqZ_lt by lia. cbn [fmap option_fmap option_map mbind option_bind].
  rewrite read_at_cons.
  destruct (decide (0 <= k)%Z) as [Hk|Hk];
    [|by rewrite decide_False by lia].
  rewrite list_lookup_fmap.
  destruct (decide (k < c)%Z) as [Hkc|Hkc].
  2:{ rewrite lookup_seqZ_ge by lia. by rewrite decide_False by lia. }
  rewrite lookup_seqZ_lt by lia. cbn [fmap option_fmap option_map mbind option_bind read0].
  rewrite decide_True by lia.
  by rewrite !Z.add_0_l, !Z2Nat.id by lia.
Qed.

Lemma read3_zeros_in_range {A} (z : A) (h w c i j k : Z) :
  (0 <= i < h)%Z -> (0 <= j < w)%Z -> (0 <= k < c)%Z ->
  read3 (replicate (Z.to_nat h)
           (replicate (Z.to_nat w) (replicate (Z.to_nat c) z))) [i; j; k]
  = Some z.
Proof.
  intros Hi Hj Hk. unfold read3, read2, read1.
  rewrite read_at_cons, decide_True, lookup_replicate_2 by lia.
  cbn [mbind option_bind].
  rewrite read_at_cons, decide_True, lookup_replicate_2 by lia.
  cbn [mbind option_bind].
  rewrite read_at_cons, decide_True, lookup_replicate_2 by lia.
  done.
Qed.

Section ClaimsHeatmap.
Variable gaussian_radius : list R -> R -> R.
Variables (labels : Labels) (output_size input_size : Z * Z).
Variables (num_classes max_num_instances : Z) (use_gaussian_bump : bool).
Variables (gaussian_rad : Z) (gaussian_iou : R) (class_offset : Z).
Variable dtype : string.

Let hr := height_ratio_of output_size input_size.
Let wr := width_ratio_of output_size input_size.
Let cell_of :=
  splat_cell gaussian_radius hr wr gaussian_rad gaussian_iou class_offset.
Let reaches :=
  contributes gaussian_radius use_gaussian_bump hr wr gaussian_rad
    gaussian_iou class_offset.

Lemma read3_splat dt (p : box * Z) (i j c : Z) :
  read3 (draw_gaussian [output_size.1; output_size.2; num_classes]
           (ct_blob gaussian_radius hr wr gaussian_rad gaussian_iou
              class_offset p) dt) [i; j; c]
  = if decide ((0 <= i < output_size.1)%Z /\ (0 <= j < output_size.2)%Z /\
               (0 <= c < num_classes)%Z)
    then Some (cell_of p i j c) else None.
Proof.
  unfold ct_blob. rewrite read3_draw_gaussian.
  by rewrite !cast_int32_floor, cast_int32_IZR.
Qed.

End ClaimsHeatmap.

(** ** When the builder returns *)

Section BuildTotal.
Variable gaussian_radius : list R -> R -> R.
Variable draw_gaussian : list Z -> list R -> DType -> tensor3 R.
Variables (labels : Labels) (output_size input_size : Z * Z).
Variables (num_classes max_num_instances : Z).
Variables (gaussian_rad : Z) (gaussian_iou : R) (class_offset : Z).
Variable dtype : string.

Hypothesis dtype_accepted :
  dtype = "float16" \/ dtype = "bfloat16" \/ dtype = "float32".
Hypothesis output_h_nonneg : (0 <= output_size.1)%Z.
Hypothesis output_w_nonneg : (0 <= output_size.2)%Z.
Hypothesis num_classes_nonneg : (0 <= num_classes)%Z.
Hypothesis capacity_nonneg : (0 <= max_num_instances)%Z.
Hypothesis count_within_boxes :
  (num_detections labels <= Z.of_nat (length (bbox labels)))%Z.
Hypothesis count_within_classes :
  (num_detections labels <= Z.of_nat (length (classes labels)))%Z.
Hypothesis count_within_capacity :
  (num_detections labels <= max_num_instances)%Z.

(** On a record that keeps the input contract the builder with Gaussians
    returns a bundle. *)
Lemma build_returns_with_gaussians :
  is_Ok (build_heatmap_and_regressed_features gaussian_radius draw_gaussian
           labels output_size input_size num_classes max_num_instances true
           gaussian_rad gaussian_iou class_offset dtype).
Proof.
  destruct (parse_dtype_accepted dtype dtype_accepted) as [dt Hdt].
  destruct (decide (0 < num_detections labels)%Z) as [Hn|Hn].
  - destruct (ct_heatmap_of_gaussian gaussian_radius draw_gaussian
                output_size input_size num_classes gaussian_rad gaussian_iou
                class_offset dt
                (replicate (Z.to_nat output_size.1)
                   (replicate (Z.to_nat output_size.2)
                      (replicate (Z.to_nat num_classes) 0%R)))
                (instances labels)) as [hm Hhm].
    { intros Hnil. apply (f_equal length) in Hnil.
      rewrite instances_length in Hnil by lia. simpl in Hnil. lia. }
    eexists. by apply (build_ok _ _ _ _ _ _ _ _ _ _ _ _ dt hm); try lia.
  - eexists. by apply (build_zero _ _ _ _ _ _ _ _ _ _ _ _ dt); try lia.
Qed.

(** Without Gaussians it does so when, in addition, every centre and
    class falls inside the heatmap. *)
Lemma build_returns_without_gaussians :
  Forall (fun p =>
            (0 <= Zfloor (scale_yct_of
                            (height_ratio_of output_size input_size) p.1)
               < output_size.1)%Z /\
            (0 <= Zfloor (scale_xct_of
                            (width_ratio_of output_size input_size) p.1)
               < output_size.2)%Z /\
            (0 <= p.2 - class_offset < num_classes)%Z) (instances labels) ->
  is_Ok (build_heatmap_and_regressed_features gaussian_radius draw_gaussian
           labels output_size input_size num_classes max_num_instances false
           gaussian_rad gaussian_iou class_offset dtype).
Proof.
  intros Hgrid.
  destruct (parse_dtype_accepted dtype dtype_accepted) as [dt Hdt].
  destruct (decide (0 < num_detections labels)%Z) as [Hn|Hn].
  - set (zeros := replicate (Z.to_nat output_size.1)
                    (replicate (Z.to_nat output_size.2)
                       (replicate (Z.to_nat num_classes) 0%R))).
    destruct (scatter_const_ok read3 write3 _ laws3 zeros
                (ct_hm_index (height_ratio_of output_size input_size)
                   (width_ratio_of output_size input_size) class_offset
                   <$> instances labels) 1%R) as [hm Hhm].
    { rewrite Forall_fmap. eapply Forall_impl; [exact Hgrid|].
      intros p (Hy & Hx & Hc). unfold compose. rewrite ct_hm_index_eq.
      unfold zeros. rewrite read3_zeros_in_range by done. by eexists. }
    rewrite length_fmap in Hhm.
    eexists. by apply (build_ok _ _ _ _ _ _ _ _ _ _ _ _ dt hm); try lia.
  - eexists. by apply (build_zero _ _ _ _ _ _ _ _ _ _ _ _ dt); try lia.
Qed.
End BuildTotal.

(** More detections than rows of capacity: TensorFlow's scatter raises. *)
Lemma build_over_capacity gaussian_radius draw labels output_size input_size
    num_classes max_num_instances use_gaussian_bump gaussian_rad gaussian_iou
    class_offset dtype :
  dtype = "float16" \/ dtype = "bfloat16" \/ dtype = "float32" ->
  (0 <= output_size.1)%Z -> (0 <= output_size.2)%Z ->
  (0 <= num_classes)%Z ->
  (0 <= max_num_instances < num_detections labels)%Z ->
  build_heatmap_and_regressed_features gaussian_radius draw labels
    output_size input_size num_classes max_num_instances use_gaussian_bump
    gaussian_rad gaussian_iou class_offset dtype
  = Raise InvalidArgumentError.
Proof.
  intros Hdt H1 H2 H3 H4. destruct (parse_dtype_accepted dtype Hdt) as [dt Hp].
  rewrite build_eq. unfold build_by_instance. rewrite Hp. cbn [bind].
  unfold tf_zeros3. rewrite !dim_nonneg by lia. cbn [bind].
  rewrite decide_True by lia. by rewrite decide_False by lia.
Qed.

(** ** The radius *)

Lemma Rmax_IZR (a b : Z) : Rmax (IZR a) (IZR b) = IZR (Z.max a b).
Proof.
  destruct (Z.le_ge_cases a b) as [H|H].
  - rewrite Z.max_r, Rmax_right by (done || by apply IZR_le). done.
  - rewrite Z.max_l, Rmax_left by (lia || apply IZR_le; lia). done.
Qed.

(** Flooring and clamping keep the order of the estimates. *)
Lemma floor_and_clamp_monotone (r r' : R) :
  (r <= r')%R -> (Rmax (tf_floor r) 1 <= Rmax (tf_floor r') 1)%R.
Proof.
  intros H. unfold tf_floor. rewrite !Rmax_IZR. apply IZR_le.
  pose proof (Zfloor_le _ _ H). lia.
Qed.

(** What the builder adds to the estimate keeps its order: if the
    estimator does not decrease when the height (or the width) of a box
    grows, neither does the radius computed from it. *)
Lemma analytic_radius_keeps_monotonicity
    (gaussian_radius : list R -> R -> R) (gaussian_iou : R) :
  (forall h h' w, (h <= h')%R ->
     (gaussian_radius [h; w] gaussian_iou
      <= gaussian_radius [h'; w] gaussian_iou)%R) ->
  (forall h w w', (w <= w')%R ->
     (gaussian_radius [h; w] gaussian_iou
      <= gaussian_radius [h; w'] gaussian_iou)%R) ->
  forall h h' w w', (h <= h')%R -> (w <= w')%R ->
  radius gaussian_radius [[h; w]] 1 1 (-1) gaussian_iou
  = [Rmax (tf_floor (gaussian_radius [tf_ceil h; tf_ceil w] gaussian_iou)) 1] /\
  (Rmax (tf_floor (gaussian_radius [tf_ceil h; tf_ceil w] gaussian_iou)) 1
   <= Rmax (tf_floor (gaussian_radius [tf_ceil h'; tf_ceil w'] gaussian_iou))
        1)%R.
Proof.
  intros Hh Hw h h' w w' Hhh Hww. split; [done|].
  apply floor_and_clamp_monotone.
  assert (tf_ceil h <= tf_ceil h')%R
    by (apply IZR_le, Zceil_le; done).
  assert (tf_ceil w <= tf_ceil w')%R
    by (apply IZR_le, Zceil_le; done).
  etrans; [by apply Hh | by apply Hw].
Qed.

(** C7, as the code has it.  With the sentinel [-1] the radius of an
    instance is the analytic estimate of its ceil-rounded height and width,
    floored and clamped from below by 1: an integer that is at least 1.
    With any other override the estimate is not consulted and the
    override itself, unclamped, is the radius of every instance. *)
Theorem radius_is_floored_estimate_or_override
    (gaussian_radius : list R -> R -> R) (box_heights_widths : list (list R))
    (num_objects max_num_instances gaussian_rad : Z) (gaussian_iou : R) :
  let radii := radius gaussian_radius box_heights_widths num_objects
                 max_num_instances gaussian_rad gaussian_iou in
  if decide (gaussian_rad = (-1)%Z) then
    radii = (fun hw =>
               IZR (Z.max
                      (Zfloor (gaussian_radius (tf_ceil <$> hw) gaussian_iou))
                      1)) <$> box_heights_widths /\
    Forall (fun r => (1 <= r)%R) radii
  else
    radii = slice_to num_objects
              (replicate (Z.to_nat max_num_instances) (IZR gaussian_rad)) /\
    Forall (fun r => r = IZR gaussian_rad) radii /\
    forall gaussian_radius',
      radius gaussian_radius' box_heights_widths num_objects
        max_num_instances gaussian_rad gaussian_iou = radii.
Proof.
  intros radii. unfold radii, radius. case_decide as Hrad.
  - assert (forall x, Rmax (tf_floor x) 1 = IZR (Z.max (Zfloor x) 1)) as Hmax
      by (intros x; apply Rmax_IZR).
    rewrite <- !list_fmap_compose. split.
    + apply list_fmap_ext. intros i hw _. simpl. apply Hmax.
    + apply Forall_fmap, Forall_true. intros hw. simpl. apply Rmax_r.
  - split; [done|]. split; [|done].
    unfold slice_to. case_decide.
    + apply Forall_take, Forall_replicate. done.
    + apply Forall_take, Forall_replicate. done.
Qed.

(** C7, as the specification words it, fails: an override of 0 gives the
    radius 0, which is below the floor of 1. *)
Lemma fixed_radius_below_the_floor :
  exists r, r ∈ radius unit_radius [[2; 3]%R] 1 1 0 0.7%R /\ ~ (1 <= r)%R.
Proof.
  exists 0%R. split.
  - unfold radius. rewrite decide_False by done.
    unfold slice_to. rewrite decide_True by done. simpl. by left.
  - lra.
Qed.

(** * The claims on concrete records *)

(** A record with the first box of [__main__] alone, for the run without
    Gaussians. *)
Lemma single_scatter_call_ok gaussian_radius draw :
  exists b,
    build_heatmap_and_regressed_features gaussian_radius draw
      (padded_record [(Box 10 300 15 370, 1%Z)] [] []) (128, 128)%Z
      (512, 512)%Z 90 1 false (-1) 0.7%R 0 "float32" = Ok b.
Proof.
  set (hr := height_ratio_of (128, 128)%Z (512, 512)%Z).
  set (wr := width_ratio_of (128, 128)%Z (512, 512)%Z).
  set (zeros := replicate (Z.to_nat 128)
                  (replicate (Z.to_nat 128) (replicate (Z.to_nat 90) 0%R))).
  destruct (scatter_const_ok read3 write3 _ laws3 zeros
              [ct_hm_index hr wr 0 (Box 10 300 15 370, 1%Z)] 1%R)
    as [hm Hhm].
  { constructor; [|constructor]. rewrite ct_hm_index_eq.
    destruct main_scaled_center as [Hx Hy]. fold hr in Hy. fold wr in Hx.
    cbn [fst snd]. rewrite Hx, Hy.
    rewrite (Zfloor_eq 3 3.125), (Zfloor_eq 83 83.75) by lra.
    unfold zeros. rewrite read3_zeros_in_range by lia. by eexists. }
  eexists.
  apply (build_ok _ _ _ _ _ _ _ _ _ _ _ _ float32 hm); try done;
    try (simpl; lia).
Qed.

Lemma mask_marks_the_first_count_rows_witness :
  exists b, main_call unit_radius draw_gaussian = Ok b /\
    (exists v, box_mask b !! 3 = Some v /\ (v = 0%Z \/ v = 1%Z) /\
       (v = 1%Z <-> (Z.of_nat 3 < 3)%Z)) /\
    ((3 <= Z.of_nat 3)%Z ->
       ct_offset b !! 3 = Some [0; 0]%R /\
       size b !! 3 = Some [0; 0]%R /\
       box_indices b !! 3 = Some [0; 0]%Z).
Proof.
  destruct (main_call_ok unit_radius draw_gaussian) as [b Hb].
  exists b. split; [exact Hb|].
  apply (mask_marks_the_first_count_rows unit_radius draw_gaussian
           main_labels (128, 128)%Z (512, 512)%Z 90%Z 128%Z true (-1)%Z 0.7%R
           0%Z "float32" b 3 Hb).
  simpl. lia.
Defined.




Lemma heatmap_ignores_the_order_of_instances_witness :
  ct_heatmaps <$>
    build_heatmap_and_regressed_features unit_radius draw_gaussian
      (padded_record
         [(Box 10 300 15 370, 1%Z); (Box 100 300 150 370, 2%Z)] [] [])
      (128, 128)%Z (512, 512)%Z 90 2 true (-1) 0.7%R 0 "float32"
  = ct_heatmaps <$>
    build_heatmap_and_regressed_features unit_radius draw_gaussian
      (padded_record
         [(Box 100 300 150 370, 2%Z); (Box 10 300 15 370, 1%Z)] [] [])
      (128, 128)%Z (512, 512)%Z 90 2 true (-1) 0.7%R 0 "float32".
Proof.
  apply (heatmap_ignores_the_order_of_instances unit_radius draw_gaussian
           (128, 128)%Z (512, 512)%Z 90%Z 2%Z true (-1)%Z 0.7%R 0%Z "float32"
           [] [] [(Box 10 300 15 370, 1%Z); (Box 100 300 150 370, 2%Z)]
           [(Box 100 300 150 370, 2%Z); (Box 10 300 15 370, 1%Z)]).
  apply perm_swap.
Defined.



(** * Further properties of the builder *)

Lemma parse_dtype_Ok_inv (dtype : string) (dt : DType) :
  parse_dtype dtype = Ok dt ->
  dtype = "float16" \/ dtype = "bfloat16" \/ dtype = "float32".
Proof. unfold parse_dtype. repeat case_decide; try discriminate; tauto. Qed.

Lemma sum_replicate (k : nat) (z : Z) :
  foldr Z.add 0%Z (replicate k z) = (Z.of_nat k * z)%Z.
Proof. induction k as [|k IH]; simpl; [done|]. rewrite IH. lia. Qed.

Lemma foldr_add_app (l k : list Z) :
  foldr Z.add 0%Z (l ++ k) = (foldr Z.add 0%Z l + foldr Z.add 0%Z k)%Z.
Proof. induction l as [|x l IH]; simpl; [done|]. rewrite IH. lia. Qed.

Section Encoder.
Variable gaussian_radius : list R -> R -> R.
Variable draw_gaussian : list Z -> list R -> DType -> tensor3 R.
Variables (labels : Labels) (output_size input_size : Z * Z).
Variables (num_classes max_num_instances : Z) (use_gaussian_bump : bool).
Variables (gaussian_rad : Z) (gaussian_iou : R) (class_offset : Z).
Variable dtype : string.

Let build := build_heatmap_and_regressed_features gaussian_radius
  draw_gaussian labels output_size input_size num_classes max_num_instances
  use_gaussian_bump gaussian_rad gaussian_iou class_offset dtype.

(** X1.  The four per-instance arrays of a returned bundle have the full
    capacity whatever the number of detections: [max_num_instances] rows
    (entries, for the mask), and two columns in every row. *)
Theorem targets_have_the_full_capacity (b : Bundle) :
  build = Ok b ->
  let m := Z.to_nat max_num_instances in
  length (ct_offset b) = m /\ length (size b) = m /\
  length (box_mask b) = m /\ length (box_indices b) = m /\
  Forall (fun r => length r = 2) (ct_offset b) /\
  Forall (fun r => length r = 2) (size b) /\
  Forall (fun r => length r = 2) (box_indices b).
Proof.
  intros H m. apply build_inv in H as (dt & _ & _ & _ & _ & _ & H).
  case_decide as Hn.
  - destruct H as (Hb & _ & Hm & hm & _ & ->). fold m in Hm.
    cbn [ct_offset size box_mask box_indices encode_targets].
    rewrite !length_app, !length_fmap, !length_replicate, !length_take.
    repeat split; try lia.
    all: apply Forall_app; split;
      [rewrite Forall_fmap; by apply Forall_true
      |by apply Forall_replicate].
  - subst b. cbn [ct_offset size box_mask box_indices zero_bundle].
    rewrite !length_replicate. repeat split; try done.
    all: by apply Forall_replicate.
Qed.


(** X3.  The entries of the returned mask add up to the number of
    detections (to 0 when that number is negative). *)
Theorem mask_counts_the_detections (b : Bundle) :
  build = Ok b ->
  foldr Z.add 0%Z (box_mask b) = Z.max 0 (num_detections labels).
Proof.
  intros H. apply build_inv in H as (dt & _ & _ & _ & _ & _ & H).
  case_decide as Hn.
  - destruct H as (Hb & _ & Hm & hm & _ & ->).
    cbn [box_mask encode_targets].
    rewrite foldr_add_app, !sum_replicate, length_take. lia.
  - subst b. cbn [box_mask zero_bundle]. rewrite sum_replicate. lia.
Qed.

End Encoder.

(** ** When the call succeeds, exactly *)

Lemma read3_replicate_range {A} (z : A) (h w c : nat) (i j k : Z) :
  is_Some (read3 (replicate h (replicate w (replicate c z))) [i; j; k]) <->
  (0 <= i < Z.of_nat h)%Z /\ (0 <= j < Z.of_nat w)%Z /\
  (0 <= k < Z.of_nat c)%Z.
Proof.
  unfold read3, read2, read1. rewrite read_at_cons. split.
  - case_decide as Hi; [|by intros [? [=]]].
    destruct (replicate h _ !! Z.to_nat i) as [s|] eqn:Hs;
      [|by intros [? [=]]].
    apply lookup_replicate in Hs as [-> Hih]. cbn [mbind option_bind].
    rewrite read_at_cons. case_decide as Hj; [|by intros [? [=]]].
    destruct (replicate w _ !! Z.to_nat j) as [s|] eqn:Hs;
      [|by intros [? [=]]].
    apply lookup_replicate in Hs as [-> Hjw]. cbn [mbind option_bind].
    rewrite read_at_cons. case_decide as Hk; [|by intros [? [=]]].
    destruct (replicate c _ !! Z.to_nat k) as [s|] eqn:Hs;
      [|by intros [? [=]]].
    apply lookup_replicate in Hs as [-> Hkc]. intros _. lia.
  - intros (Hi & Hj & Hk).
    rewrite decide_True, lookup_replicate_2 by lia. cbn [mbind option_bind].
    rewrite read_at_cons, decide_True, lookup_replicate_2 by lia.
    cbn [mbind option_bind].
    rewrite read_at_cons, decide_True, lookup_replicate_2 by lia.
    by eexists.
Qed.

Section Success.
Variable gaussian_radius : list R -> R -> R.
Variable draw_gaussian : list Z -> list R -> DType -> tensor3 R.
Variables (labels : Labels) (output_size input_size : Z * Z).
Variables (num_classes max_num_instances : Z).
Variables (gaussian_rad : Z) (gaussian_iou : R) (class_offset : Z).
Variable dtype : string.

Let hr := height_ratio_of output_size input_size.
Let wr := width_ratio_of output_size input_size.
Let cell (p : box * Z) : list Z :=
  [Zfloor (scale_yct_of hr p.1); Zfloor (scale_xct_of wr p.1);
   (p.2 - class_offset)%Z].

Let contract : Prop :=
  (dtype = "float16" \/ dtype = "bfloat16" \/ dtype = "float32") /\
  (0 <= output_size.1)%Z /\ (0 <= output_size.2)%Z /\
  (0 <= num_classes)%Z /\ (0 <= max_num_instances)%Z /\
  (num_detections labels <= Z.of_nat (length (bbox labels)))%Z /\
  (num_detections labels <= Z.of_nat (length (classes labels)))%Z /\
  (num_detections labels <= max_num_instances)%Z.

Let in_grid (p : box * Z) : Prop :=
  (0 <= Zfloor (scale_yct_of hr p.1) < output_size.1)%Z /\
  (0 <= Zfloor (scale_xct_of wr p.1) < output_size.2)%Z /\
  (0 <= p.2 - class_offset < num_classes)%Z.

Lemma build_Ok_contract use_gaussian_bump b :
  build_heatmap_and_regressed_features gaussian_radius draw_gaussian
    labels output_size input_size num_classes max_num_instances
    use_gaussian_bump gaussian_rad gaussian_iou class_offset dtype = Ok b ->
  contract.
Proof.
  intros H. apply build_inv in H as (dt & Hdt & H1 & H2 & H3 & H4 & H).
  apply parse_dtype_Ok_inv in Hdt. unfold contract.
  do 5 (split; [done|]). case_decide; [|lia].
  destruct H as (? & ? & ? & _). lia.
Qed.

Lemma scatter_heatmap_inv (dt : DType) (hm : tensor3 R) :
  ct_heatmap_of gaussian_radius draw_gaussian output_size num_classes
    false gaussian_rad gaussian_iou class_offset hr wr dt
    (replicate (Z.to_nat output_size.1)
       (replicate (Z.to_nat output_size.2)
          (replicate (Z.to_nat num_classes) 0%R)))
    (instances labels) = Ok hm ->
  Forall in_grid (instances labels) /\
  forall ix, read3 hm ix
             = if decide (ix ∈ cell <$> instances labels) then Some 1%R
               else read3 (replicate (Z.to_nat output_size.1)
                             (replicate (Z.to_nat output_size.2)
                                (replicate (Z.to_nat num_classes) 0%R))) ix.
Proof.
  intros Hhm. unfold ct_heatmap_of in Hhm.
  assert (ct_hm_index hr wr class_offset <$> instances labels
          = cell <$> instances labels) as Hcells.
  { apply list_fmap_ext. intros i p _. apply ct_hm_index_eq. }
  rewrite Hcells, <- (length_fmap cell) in Hhm.
  destruct (scatter_const_inv read3 write3 _ laws3 _ _ _ _ Hhm)
    as (_ & Hval & Hrd).
  split; [|exact Hrd].
  rewrite Forall_fmap in Hval. eapply Forall_impl; [exact Hval|].
  intros p Hp. unfold compose, cell in Hp.
  apply read3_replicate_range in Hp. unfold in_grid. lia.
Qed.



End Success.

(** ** What the result depends on *)

Lemma zip_with_idemp {A} (f : A -> A -> A) :
  (forall x, f x x = x) -> forall a, zip_with f a a = a.
Proof.
  intros Hf a. induction a as [|x a IH]; simpl; [done|]. by rewrite Hf, IH.
Qed.

Lemma maximum3_idemp (a : tensor3 R) : maximum3 a a = a.
Proof.
  unfold maximum3. do 2 (apply zip_with_idemp; intros).
  apply zip_with_idemp. intros r. apply Rmax_left, Rle_refl.
Qed.

(** A running maximum absorbs what it has already seen. *)
Lemma foldl_max_absorbs (t0 : tensor3 R) (r : list (tensor3 R))
    (x : tensor3 R) :
  x ∈ t0 :: r -> maximum3 (foldl maximum3 t0 r) x = foldl maximum3 t0 r.
Proof.
  induction r as [|y r IH] using rev_ind.
  - intros ->%list_elem_of_singleton. apply maximum3_idemp.
  - rewrite foldl_app. cbn [foldl]. rewrite app_comm_cons, elem_of_app.
    intros [Hx|Hx].
    + rewrite <- maximum3_assoc, (maximum3_comm y x), maximum3_assoc.
      by rewrite IH.
    + apply list_elem_of_singleton in Hx as ->.
      by rewrite <- maximum3_assoc, maximum3_idemp.
Qed.

Lemma foldl_max_covers (t0 : tensor3 R) (r : list (tensor3 R))
    (t0' : tensor3 R) (r' : list (tensor3 R)) :
  (forall x, x ∈ t0' :: r' -> x ∈ t0 :: r) ->
  maximum3 (foldl maximum3 t0 r) (foldl maximum3 t0' r')
  = foldl maximum3 t0 r.
Proof.
  induction r' as [|y r' IH] using rev_ind; intros H.
  - cbn [foldl]. apply foldl_max_absorbs, H. left.
  - rewrite foldl_app. cbn [foldl]. rewrite maximum3_assoc, IH.
    + apply foldl_max_absorbs, H. rewrite app_comm_cons, elem_of_app.
      right. left.
    + intros x Hx. apply H. rewrite app_comm_cons, elem_of_app. by left.
Qed.

(** The maximum over a list of tensors depends on the tensors that occur,
    not on how often or where. *)
Lemma reduce_max_same_elements (ts ts' : list (tensor3 R)) :
  (forall t, t ∈ ts <-> t ∈ ts') -> reduce_max ts = reduce_max ts'.
Proof.
  intros H. destruct ts as [|t0 r], ts' as [|t0' r'].
  - done.
  - exfalso. eapply not_elem_of_nil, H. left.
  - exfalso. eapply not_elem_of_nil, H. left.
  - cbn [reduce_max]. f_equal.
    rewrite <- (foldl_max_covers t0 r t0' r') by (intros; by apply H).
    rewrite maximum3_comm. apply foldl_max_covers. intros; by apply H.
Qed.

Lemma fmap_same_elements {A B} (f : A -> B) (l l' : list A) :
  (forall x, x ∈ l <-> x ∈ l') -> forall y, y ∈ f <$> l <-> y ∈ f <$> l'.
Proof.
  intros H y. rewrite !list_elem_of_fmap.
  split; intros (x & -> & Hx); exists x; (split; [done|by apply H]).
Qed.

Section ScatterSet.
Context {T A : Type}.
Variable rd : T -> list Z -> option A.
Variable w : T -> list Z -> A -> result T.
Variable sh : relation T.
Hypothesis laws : tensor_laws rd w sh.

(** Scattering one value: the result depends on the cells addressed, not
    on how often or in which order. *)
Lemma scatter_const_same_elements t idx idx' v t1 t2 :
  (forall ix, ix ∈ idx <-> ix ∈ idx') ->
  tensor_scatter_nd_update w t idx (replicate (length idx) v) = Ok t1 ->
  tensor_scatter_nd_update w t idx' (replicate (length idx') v) = Ok t2 ->
  t1 = t2.
Proof.
  intros H H1 H2.
  destruct (scatter_const_inv rd w sh laws _ _ _ _ H1) as (Hs1 & _ & Hr1).
  destruct (scatter_const_inv rd w sh laws _ _ _ _ H2) as (Hs2 & _ & Hr2).
  pose proof (tl_equiv _ _ _ laws) as Heq.
  apply (tl_ext _ _ _ laws).
  - by rewrite <- Hs1.
  - intros ix. rewrite Hr1, Hr2.
    destruct (decide (ix ∈ idx)) as [Hi|Hi];
      destruct (decide (ix ∈ idx')) as [Hi'|Hi']; try done.
    + by apply H in Hi.
    + by apply H in Hi'.
Qed.
End ScatterSet.

Section Dependence.
Variable gaussian_radius : list R -> R -> R.
Variable draw_gaussian : list Z -> list R -> DType -> tensor3 R.
Variables (output_size input_size : Z * Z).
Variables (num_classes max_num_instances : Z) (use_gaussian_bump : bool).
Variables (gaussian_rad : Z) (gaussian_iou : R) (class_offset : Z).
Variable dtype : string.

Local Abbreviation build labels :=
  (build_heatmap_and_regressed_features gaussian_radius draw_gaussian
     labels output_size input_size num_classes max_num_instances
     use_gaussian_bump gaussian_rad gaussian_iou class_offset dtype).
Let hr := height_ratio_of output_size input_size.
Let wr := width_ratio_of output_size input_size.
Let heatmap_of := ct_heatmap_of gaussian_radius draw_gaussian output_size
  num_classes use_gaussian_bump gaussian_rad gaussian_iou class_offset
  hr wr.

(** The heatmaps of two returned bundles agree as soon as the heatmaps
    of their instances do. *)
Lemma heatmaps_agree (l1 l2 : Labels) (b1 b2 : Bundle) :
  build l1 = Ok b1 -> build l2 = Ok b2 ->
  length (instances l1) = length (instances l2) \/
    (instances l1 = [] <-> instances l2 = []) ->
  (forall dt zeros hm1 hm2,
     heatmap_of dt zeros (instances l1) = Ok hm1 ->
     heatmap_of dt zeros (instances l2) = Ok hm2 -> hm1 = hm2) ->
  ct_heatmaps b1 = ct_heatmaps b2.
Proof.
  intros H1 H2 Hnil Hhm.
  assert (instances l1 = [] <-> instances l2 = []) as Hnil'.
  { destruct Hnil as [Hlen|Hnil]; [|done].
    split; intros Hl; rewrite Hl in Hlen.
    - by apply nil_length_inv.
    - by apply nil_length_inv. }
  apply build_inv in H1 as (dt & Hdt & _ & _ & _ & _ & H1).
  apply build_inv in H2 as (dt' & Hdt' & _ & _ & _ & _ & H2).
  assert (dt' = dt) as -> by congruence.
  assert (forall l : Labels,
            (0 < num_detections l)%Z ->
            Z.to_nat (num_detections l) <= length (bbox l) ->
            Z.to_nat (num_detections l) <= length (classes l) ->
            instances l <> []) as Hne.
  { intros l Hn Hb Hc Hl. apply (f_equal length) in Hl.
    rewrite instances_length in Hl by done. simpl in Hl. lia. }
  assert (forall l : Labels, ~ (0 < num_detections l)%Z -> instances l = [])
    as He.
  { intros l Hn. unfold instances. by rewrite Z2Nat.nonpos by lia. }
  destruct (decide (0 < num_detections l1)%Z) as [Hn1|Hn1];
    destruct (decide (0 < num_detections l2)%Z) as [Hn2|Hn2].
  - destruct H1 as (_ & _ & _ & hm1 & Hhm1 & ->).
    destruct H2 as (_ & _ & _ & hm2 & Hhm2 & ->).
    cbn [ct_heatmaps encode_targets]. by eapply Hhm.
  - destruct H1 as (Hb & Hc & _). exfalso.
    apply (Hne l1 Hn1 Hb Hc), Hnil', He, Hn2.
  - destruct H2 as (Hb & Hc & _). exfalso.
    apply (Hne l2 Hn2 Hb Hc), Hnil', He, Hn1.
  - by subst b1 b2.
Qed.

(** X8.  Rows of [bbox] and entries of [classes] beyond [num_detections]
    are never read: two records with the same count and the same first
    [num_detections] boxes and classes give the same result, be it a
    bundle or an error, whatever their padding. *)
Theorem padding_is_never_read (l1 l2 : Labels) :
  num_detections l1 = num_detections l2 ->
  take (Z.to_nat (num_detections l1)) (bbox l1)
  = take (Z.to_nat (num_detections l1)) (bbox l2) ->
  take (Z.to_nat (num_detections l1)) (classes l1)
  = take (Z.to_nat (num_detections l1)) (classes l2) ->
  build l1 = build l2.
Proof.
  intros Hn Hb Hc. rewrite !build_eq. unfold build_by_instance.
  destruct (parse_dtype dtype) as [dt|e]; [|done]. cbn [bind].
  destruct (tf_zeros3 _ _ _ _) as [zeros|e]; [|done]. cbn [bind].
  destruct (dim max_num_instances) as [m|e]; [|done]. cbn [bind].
  assert (instances l1 = instances l2) as Hi.
  { unfold instances. by rewrite <- Hn, Hb, Hc. }
  pose proof (f_equal length Hb) as Hlb.
  pose proof (f_equal length Hc) as Hlc.
  rewrite !length_take in Hlb. rewrite !length_take in Hlc.
  rewrite <- Hn, Hi, Hb.
  case_decide; [|done].
  destruct (decide (Z.to_nat (num_detections l1) <= length (bbox l1) /\ _))
    as [Hd|Hd];
    destruct (decide (Z.to_nat (num_detections l1) <= length (bbox l2) /\ _))
      as [Hd'|Hd']; try done; exfalso; lia.
Qed.

(** X9.  Only the difference between a class and [class_offset] matters:
    adding the same number to every class and to the offset leaves the
    result, be it a bundle or an error, as it was. *)
Theorem classes_count_relative_to_the_offset (labels : Labels) (k : Z) :
  build_heatmap_and_regressed_features gaussian_radius draw_gaussian
    (mkLabels (bbox labels) ((fun c => (c + k)%Z) <$> classes labels)
       (num_detections labels))
    output_size input_size num_classes max_num_instances
    use_gaussian_bump gaussian_rad gaussian_iou (class_offset + k) dtype
  = build labels.
Proof.
  rewrite !build_eq. unfold build_by_instance.
  destruct (parse_dtype dtype) as [dt|e]; [|done]. cbn [bind].
  destruct (tf_zeros3 _ _ _ _) as [zeros|e]; [|done]. cbn [bind].
  destruct (dim max_num_instances) as [m|e]; [|done]. cbn [bind].
  cbn [num_detections bbox classes]. rewrite length_fmap.
  case_decide; [|done]. case_decide; [|done].
  match goal with
  | |- bind ?x _ = bind ?y _ => assert (x = y) as ->; [|done]
  end.
  unfold instances. cbn [num_detections bbox classes].
  rewrite <- fmap_take.
  set (bs := take _ (bbox labels)). set (cs := take _ (classes labels)).
  assert (zip bs ((fun c => (c + k)%Z) <$> cs)
          = (fun p : box * Z => (p.1, (p.2 + k)%Z)) <$> zip bs cs) as ->.
  { clearbody bs cs. revert cs.
    induction bs as [|b bs IH]; intros [|c cs]; simpl; try done.
    by rewrite IH. }
  unfold ct_heatmap_of. rewrite !length_fmap, <- !list_fmap_compose.
  destruct use_gaussian_bump.
  - f_equal. apply list_fmap_ext. intros i p _. unfold compose, ct_blob.
    cbn [fst snd]. do 3 f_equal. lia.
  - f_equal. apply list_fmap_ext. intros i p _. unfold compose, ct_hm_index.
    cbn [fst snd]. do 5 f_equal. lia.
Qed.

(** X10.  The heatmap depends on the instances as a set: two records
    whose first [num_detections] instances are the same up to order and
    repetition give the same heatmap, with and without Gaussians. *)
Theorem heatmap_depends_on_the_set_of_instances (l1 l2 : Labels)
    (b1 b2 : Bundle) :
  (forall p, p ∈ instances l1 <-> p ∈ instances l2) ->
  build l1 = Ok b1 -> build l2 = Ok b2 ->
  ct_heatmaps b1 = ct_heatmaps b2.
Proof.
  intros Hset H1 H2. apply (heatmaps_agree l1 l2 b1 b2 H1 H2).
  - right. split; intros Hl.
    + destruct (instances l2) as [|p ?]; [done|].
      exfalso. eapply not_elem_of_nil. rewrite <- Hl. apply Hset. left.
    + destruct (instances l1) as [|p ?]; [done|].
      exfalso. eapply not_elem_of_nil. rewrite <- Hl. apply Hset. left.
  - intros dt zeros hm1 hm2. unfold heatmap_of, ct_heatmap_of.
    destruct use_gaussian_bump.
    + intros Hhm1 Hhm2.
      rewrite (reduce_max_same_elements _
                 ((fun p =>
                     draw_gaussian [output_size.1; output_size.2; num_classes]
                       (ct_blob gaussian_radius hr wr gaussian_rad
                          gaussian_iou class_offset p) dt)
                    <$> instances l2)) in Hhm1
        by (by apply fmap_same_elements).
      congruence.
    + rewrite <- !(length_fmap (ct_hm_index hr wr class_offset)).
      apply (scatter_const_same_elements read3 write3 _ laws3).
      by apply fmap_same_elements.
Qed.

End Dependence.

(** ** The regression targets *)

Lemma floor_in_grid (yc : R) (ih oh : Z) :
  (0 < ih)%Z -> (0 < oh)%Z -> (0 <= yc < IZR ih)%R ->
  (0 <= Zfloor (yc * (IZR oh / IZR ih)) < oh)%Z.
Proof.
  intros Hih Hoh [H0 H1].
  apply IZR_lt in Hih, Hoh.
  assert (0 <= yc * (IZR oh / IZR ih) < IZR oh)%R as [Ha Hb].
  { split.
    - apply Rmult_le_pos; [exact H0|]. apply Rlt_le, Rdiv_lt_0_compat; lra.
    - unfold Rdiv. rewrite <- Rmult_assoc.
      apply (Rmult_lt_reg_r (IZR ih)); [lra|].
      rewrite Rmult_assoc, Rinv_l by lra. nra. }
  split.
  - apply Zfloor_lub. simpl. lra.
  - apply lt_IZR. pose proof (Zfloor_bound (yc * (IZR oh / IZR ih))). lra.
Qed.

(** X12.  The four per-instance arrays do not depend on how the heatmap
    is made: two returning calls on the same boxes and count, with the
    same sizes, capacity and precision, give the same [ct_offset], [size],
    [box_mask] and [box_indices] whatever their classes, [num_classes],
    [class_offset], [use_gaussian_bump], radius settings and Gaussian
    helpers. *)
Theorem targets_ignore_the_heatmap_options
    (gaussian_radius1 gaussian_radius2 : list R -> R -> R)
    (draw_gaussian1 draw_gaussian2 : list Z -> list R -> DType -> tensor3 R)
    (l1 l2 : Labels) (output_size input_size : Z * Z)
    (num_classes1 num_classes2 max_num_instances : Z)
    (use_gaussian_bump1 use_gaussian_bump2 : bool)
    (gaussian_rad1 gaussian_rad2 : Z) (gaussian_iou1 gaussian_iou2 : R)
    (class_offset1 class_offset2 : Z) (dtype : string) (b1 b2 : Bundle) :
  bbox l1 = bbox l2 -> num_detections l1 = num_detections l2 ->
  build_heatmap_and_regressed_features gaussian_radius1 draw_gaussian1
    l1 output_size input_size num_classes1 max_num_instances
    use_gaussian_bump1 gaussian_rad1 gaussian_iou1 class_offset1 dtype
  = Ok b1 ->
  build_heatmap_and_regressed_features gaussian_radius2 draw_gaussian2
    l2 output_size input_size num_classes2 max_num_instances
    use_gaussian_bump2 gaussian_rad2 gaussian_iou2 class_offset2 dtype
  = Ok b2 ->
  ct_offset b1 = ct_offset b2 /\ size b1 = size b2 /\
  box_mask b1 = box_mask b2 /\ box_indices b1 = box_indices b2.
Proof.
  intros Hb Hn H1 H2.
  apply build_inv in H1 as (dt1 & _ & _ & _ & _ & _ & H1).
  apply build_inv in H2 as (dt2 & _ & _ & _ & _ & _ & H2).
  rewrite <- Hn, <- Hb in H2. case_decide as Hpos.
  - destruct H1 as (_ & _ & _ & hm1 & _ & ->).
    destruct H2 as (_ & _ & _ & hm2 & _ & ->). done.
  - by subst b1 b2.
Qed.


(** ** Settings a branch does not use, and growth of the heatmap *)

Lemma reduce_max_inv (ts : list (tensor3 R)) (hm : tensor3 R) :
  reduce_max ts = Ok hm ->
  exists t r, ts = t :: r /\ hm = foldl maximum3 t r.
Proof. destruct ts as [|t r]; [done|]. intros [= <-]. eauto. Qed.

Section Settings.
Variables gaussian_radius1 gaussian_radius2 : list R -> R -> R.
Variables (labels : Labels) (output_size input_size : Z * Z).
Variables (num_classes max_num_instances : Z).
Variables (gaussian_iou1 gaussian_iou2 : R) (class_offset : Z).
Variable dtype : string.

(** X14.  Without Gaussians the radius settings and the two Gaussian
    helpers are not used: changing [gaussian_rad], [gaussian_iou],
    [gaussian_radius] or [draw_gaussian] leaves the result, be it a bundle
    or an error, as it was. *)
Theorem scatter_mode_ignores_the_gaussian_settings
    (draw_gaussian1 draw_gaussian2 : list Z -> list R -> DType -> tensor3 R)
    (gaussian_rad1 gaussian_rad2 : Z) :
  build_heatmap_and_regressed_features gaussian_radius1 draw_gaussian1
    labels output_size input_size num_classes max_num_instances false
    gaussian_rad1 gaussian_iou1 class_offset dtype
  = build_heatmap_and_regressed_features gaussian_radius2 draw_gaussian2
      labels output_size input_size num_classes max_num_instances false
      gaussian_rad2 gaussian_iou2 class_offset dtype.
Proof.
  rewrite !build_eq. unfold build_by_instance, ct_heatmap_of. reflexivity.
Qed.

(** X15.  With a fixed radius ([gaussian_rad] other than -1) the radius
    estimator and [gaussian_iou] are not used: changing them leaves the
    result as it was, in both modes. *)
Theorem fixed_radius_ignores_the_estimator
    (draw_gaussian : list Z -> list R -> DType -> tensor3 R)
    (use_gaussian_bump : bool) (gaussian_rad : Z) :
  gaussian_rad <> (-1)%Z ->
  build_heatmap_and_regressed_features gaussian_radius1 draw_gaussian
    labels output_size input_size num_classes max_num_instances
    use_gaussian_bump gaussian_rad gaussian_iou1 class_offset dtype
  = build_heatmap_and_regressed_features gaussian_radius2 draw_gaussian
      labels output_size input_size num_classes max_num_instances
      use_gaussian_bump gaussian_rad gaussian_iou2 class_offset dtype.
Proof.
  intros Hrad. rewrite !build_eq. unfold build_by_instance.
  destruct (parse_dtype dtype) as [dt|e]; [|done]. cbn [bind].
  destruct (tf_zeros3 _ _ _ _) as [zeros|e]; [|done]. cbn [bind].
  destruct (dim max_num_instances) as [m|e]; [|done]. cbn [bind].
  case_decide; [|done]. case_decide; [|done].
  match goal with
  | |- bind ?x _ = bind ?y _ => assert (x = y) as ->; [|done]
  end.
  unfold ct_heatmap_of. destruct use_gaussian_bump; [|done].
  f_equal. apply list_fmap_ext. intros i p _.
  unfold ct_blob, radius_of. by rewrite !decide_False by done.
Qed.
End Settings.

Section Growth.
Variable gaussian_radius : list R -> R -> R.
Variable draw_gaussian : list Z -> list R -> DType -> tensor3 R.
Variables (output_size input_size : Z * Z).
Variables (num_classes max_num_instances : Z) (use_gaussian_bump : bool).
Variables (gaussian_rad : Z) (gaussian_iou : R) (class_offset : Z).
Variable dtype : string.

Local Abbreviation build labels :=
  (build_heatmap_and_regressed_features gaussian_radius draw_gaussian
     labels output_size input_size num_classes max_num_instances
     use_gaussian_bump gaussian_rad gaussian_iou class_offset dtype).
Let hr := height_ratio_of output_size input_size.
Let wr := width_ratio_of output_size input_size.

(** X16.  More instances never lower a cell: when every instance of a
    non-empty record is also an instance of a second record, each cell of
    the first heatmap is at most the same cell of the second, with and
    without Gaussians. *)
Theorem more_instances_never_lower_a_cell (l1 l2 : Labels)
    (b1 b2 : Bundle) (ix : list Z) (v v' : R) :
  (0 < num_detections l1)%Z ->
  (forall p, p ∈ instances l1 -> p ∈ instances l2) ->
  build l1 = Ok b1 -> build l2 = Ok b2 ->
  read3 (ct_heatmaps b1) ix = Some v ->
  read3 (ct_heatmaps b2) ix = Some v' ->
  (v <= v')%R.
Proof.
  intros Hn Hsub H1 H2 Hv Hv'.
  apply build_inv in H1 as (dt & Hdt & _ & _ & _ & _ & H1).
  apply build_inv in H2 as (dt' & Hdt' & _ & _ & _ & _ & H2).
  assert (dt' = dt) as -> by congruence.
  rewrite decide_True in H1 by done.
  destruct H1 as (Hb1 & Hc1 & _ & hm1 & Hhm1 & ->).
  assert (exists p, p ∈ instances l1) as [p Hp].
  { destruct (instances l1) as [|p ?] eqn:Hl; [|exists p; left].
    apply (f_equal length) in Hl.
    rewrite instances_length in Hl by done. simpl in Hl. lia. }
  destruct (decide (0 < num_detections l2)%Z) as [Hn2|Hn2].
  2:{ exfalso. apply Hsub in Hp. unfold instances in Hp.
      rewrite Z2Nat.nonpos in Hp by lia. by apply elem_of_nil in Hp. }
  destruct H2 as (_ & _ & _ & hm2 & Hhm2 & ->).
  cbn [ct_heatmaps encode_targets] in Hv, Hv'.
  assert (forall {B} (f : box * Z -> B) y,
            y ∈ f <$> instances l1 -> y ∈ f <$> instances l2) as Hmap.
  { intros B f y (q & -> & Hq)%list_elem_of_fmap.
    apply list_elem_of_fmap. exists q. split; [done|by apply Hsub]. }
  unfold ct_heatmap_of in Hhm1, Hhm2. destruct use_gaussian_bump.
  - apply reduce_max_inv in Hhm1 as (t1 & r1 & Hts1 & ->).
    apply reduce_max_inv in Hhm2 as (t2 & r2 & Hts2 & ->).
    destruct (read3_foldl_maximum3 _ _ _ _ Hv) as (_ & u & Hu & Hatt).
    destruct (read3_foldl_maximum3 _ _ _ _ Hv') as (Hub & _).
    destruct (Hub u) as (w & Hw & Hle).
    { rewrite <- Hts2. apply Hmap. by rewrite Hts1. }
    rewrite Hatt in Hw. by injection Hw as <-.
  - fold hr wr in Hhm1, Hhm2.
    rewrite <- (length_fmap (ct_hm_index hr wr class_offset)) in Hhm1.
    rewrite <- (length_fmap (ct_hm_index hr wr class_offset)) in Hhm2.
    destruct (scatter_const_inv read3 write3 _ laws3 _ _ _ _ Hhm1)
      as (_ & _ & Hr1).
    destruct (scatter_const_inv read3 write3 _ laws3 _ _ _ _ Hhm2)
      as (_ & _ & Hr2).
    rewrite Hr1 in Hv. rewrite Hr2 in Hv'.
    destruct (decide (ix ∈ ct_hm_index hr wr class_offset <$> instances l1))
      as [Hi|Hi].
    + injection Hv as <-. rewrite decide_True in Hv' by (by apply Hmap).
      injection Hv' as <-. lra.
    + apply read3_zeros in Hv as ->.
      destruct (decide (ix ∈ ct_hm_index hr wr class_offset
                             <$> instances l2)) as [Hi'|Hi'].
      * injection Hv' as <-. lra.
      * apply read3_zeros in Hv' as ->. lra.
Qed.
End Growth.

(** * The further properties on concrete records *)

Lemma targets_have_the_full_capacity_witness :
  exists b, main_call unit_radius draw_gaussian = Ok b /\
    length (ct_offset b) = 128 /\ length (size b) = 128 /\
    length (box_mask b) = 128 /\ length (box_indices b) = 128.
Proof.
  destruct (main_call_ok unit_radius draw_gaussian) as [b Hb].
  exists b. split; [exact Hb|].
  destruct (targets_have_the_full_capacity unit_radius draw_gaussian
              main_labels (128, 128)%Z (512, 512)%Z 90%Z 128%Z true (-1)%Z
              0.7%R 0%Z "float32" b Hb) as (H1 & H2 & H3 & H4 & _).
  repeat split; assumption.
Defined.


Lemma mask_counts_the_detections_witness :
  exists b, main_call unit_radius draw_gaussian = Ok b /\
    foldr Z.add 0%Z (box_mask b) = 3%Z.
Proof.
  destruct (main_call_ok unit_radius draw_gaussian) as [b Hb].
  exists b. split; [exact Hb|].
  exact (mask_counts_the_detections unit_radius draw_gaussian
           main_labels (128, 128)%Z (512, 512)%Z 90%Z 128%Z true (-1)%Z
           0.7%R 0%Z "float32" b Hb).
Defined.





Lemma padding_is_never_read_witness :
  main_call unit_radius draw_gaussian
  = build_heatmap_and_regressed_features unit_radius draw_gaussian
      (mkLabels
         [Box 10 300 15 370; Box 100 300 150 370; Box 15 100 200 170;
          Box 7 7 9 9]
         [1; 1; 1; 5]%Z 3)
      (128, 128)%Z (512, 512)%Z 90 128 true (-1) 0.7%R 0 "float32".
Proof.
  apply (padding_is_never_read unit_radius draw_gaussian (128, 128)%Z
           (512, 512)%Z 90%Z 128%Z true (-1)%Z 0.7%R 0%Z "float32"
           main_labels
           (mkLabels
              [Box 10 300 15 370; Box 100 300 150 370; Box 15 100 200 170;
               Box 7 7 9 9]
              [1; 1; 1; 5]%Z 3)).
  - reflexivity.
  - reflexivity.
  - reflexivity.
Defined.

Lemma targets_ignore_the_heatmap_options_witness :
  exists b1 b2,
    main_call unit_radius draw_gaussian = Ok b1 /\
    main_call (fun _ _ => 2%R) (fun _ _ _ => []) = Ok b2 /\
    ct_offset b1 = ct_offset b2 /\ size b1 = size b2 /\
    box_mask b1 = box_mask b2 /\ box_indices b1 = box_indices b2.
Proof.
  destruct (main_call_ok unit_radius draw_gaussian) as [b1 Hb1].
  destruct (main_call_ok (fun _ _ => 2%R) (fun _ _ _ => [])) as [b2 Hb2].
  exists b1, b2. split; [exact Hb1|]. split; [exact Hb2|].
  apply (targets_ignore_the_heatmap_options unit_radius (fun _ _ => 2%R)
           draw_gaussian (fun _ _ _ => []) main_labels main_labels
           (128, 128)%Z (512, 512)%Z 90%Z 90%Z 128%Z true true (-1)%Z
           (-1)%Z 0.7%R 0.7%R 0%Z 0%Z "float32" b1 b2).
  - reflexivity.
  - reflexivity.
  - exact Hb1.
  - exact Hb2.
Defined.


Lemma heatmap_depends_on_the_set_of_instances_witness :
  exists b1 b2,
    build_heatmap_and_regressed_features unit_radius draw_gaussian
      (padded_record
         [(Box 10 300 15 370, 1%Z); (Box 10 300 15 370, 1%Z)] [] [])
      (128, 128)%Z (512, 512)%Z 90 2 true (-1) 0.7%R 0 "float32" = Ok b1 /\
    build_heatmap_and_regressed_features unit_radius draw_gaussian
      (padded_record [(Box 10 300 15 370, 1%Z)] [] [])
      (128, 128)%Z (512, 512)%Z 90 2 true (-1) 0.7%R 0 "float32" = Ok b2 /\
    ct_heatmaps b1 = ct_heatmaps b2.
Proof.
  destruct (build_returns_with_gaussians unit_radius draw_gaussian
              (padded_record
                 [(Box 10 300 15 370, 1%Z); (Box 10 300 15 370, 1%Z)] [] [])
              (128, 128)%Z (512, 512)%Z 90%Z 2%Z (-1)%Z 0.7%R 0%Z "float32")
    as [b1 Hb1]; try (simpl; lia); [right; right; reflexivity|].
  destruct (build_returns_with_gaussians unit_radius draw_gaussian
              (padded_record [(Box 10 300 15 370, 1%Z)] [] [])
              (128, 128)%Z (512, 512)%Z 90%Z 2%Z (-1)%Z 0.7%R 0%Z "float32")
    as [b2 Hb2]; try (simpl; lia); [right; right; reflexivity|].
  exists b1, b2. split; [exact Hb1|]. split; [exact Hb2|].
  apply (heatmap_depends_on_the_set_of_instances unit_radius draw_gaussian
           (128, 128)%Z (512, 512)%Z 90%Z 2%Z true (-1)%Z 0.7%R 0%Z
           "float32"
           (padded_record
              [(Box 10 300 15 370, 1%Z); (Box 10 300 15 370, 1%Z)] [] [])
           (padded_record [(Box 10 300 15 370, 1%Z)] [] []) b1 b2);
    [|exact Hb1|exact Hb2].
  intros p. rewrite !instances_padded, !elem_of_cons. tauto.
Defined.


Lemma fixed_radius_ignores_the_estimator_witness :
  build_heatmap_and_regressed_features unit_radius draw_gaussian
    main_labels (128, 128)%Z (512, 512)%Z 90 128 true 2 0.7%R 0 "float32"
  = build_heatmap_and_regressed_features (fun _ _ => 5%R) draw_gaussian
      main_labels (128, 128)%Z (512, 512)%Z 90 128 true 2 0.3%R 0
      "float32".
Proof.
  apply (fixed_radius_ignores_the_estimator unit_radius (fun _ _ => 5%R)
           main_labels (128, 128)%Z (512, 512)%Z 90%Z 128%Z 0.7%R 0.3%R
           0%Z "float32" draw_gaussian true 2%Z).
  lia.
Defined.

Lemma more_instances_never_lower_a_cell_witness :
  exists b1 b2,
    build_heatmap_and_regressed_features unit_radius draw_gaussian
      (padded_record [(Box 10 300 15 370, 1%Z)] [] [])
      (128, 128)%Z (512, 512)%Z 90 2 true (-1) 0.7%R 0 "float32" = Ok b1 /\
    build_heatmap_and_regressed_features unit_radius draw_gaussian
      (padded_record
         [(Box 100 300 150 370, 2%Z); (Box 10 300 15 370, 1%Z)] [] [])
      (128, 128)%Z (512, 512)%Z 90 2 true (-1) 0.7%R 0 "float32" = Ok b2 /\
    forall ix v v',
      read3 (ct_heatmaps b1) ix = Some v ->
      read3 (ct_heatmaps b2) ix = Some v' -> (v <= v')%R.
Proof.
  destruct (build_returns_with_gaussians unit_radius draw_gaussian
              (padded_record [(Box 10 300 15 370, 1%Z)] [] [])
              (128, 128)%Z (512, 512)%Z 90%Z 2%Z (-1)%Z 0.7%R 0%Z "float32")
    as [b1 Hb1]; try (simpl; lia); [right; right; reflexivity|].
  destruct (build_returns_with_gaussians unit_radius draw_gaussian
              (padded_record
                 [(Box 100 300 150 370, 2%Z); (Box 10 300 15 370, 1%Z)]
                 [] [])
              (128, 128)%Z (512, 512)%Z 90%Z 2%Z (-1)%Z 0.7%R 0%Z "float32")
    as [b2 Hb2]; try (simpl; lia); [right; right; reflexivity|].
  exists b1, b2. split; [exact Hb1|]. split; [exact Hb2|].
  intros ix v v'.
  apply (more_instances_never_lower_a_cell unit_radius draw_gaussian
           (128, 128)%Z (512, 512)%Z 90%Z 2%Z true (-1)%Z 0.7%R 0%Z
           "float32"
           (padded_record [(Box 10 300 15 370, 1%Z)] [] [])
           (padded_record
              [(Box 100 300 150 370, 2%Z); (Box 10 300 15 370, 1%Z)] [] [])
           b1 b2 ix v v'); [| |exact Hb1|exact Hb2].
  - simpl. lia.
  - intros p. rewrite !instances_padded, !elem_of_cons. tauto.
Defined.
